(** * Festibal push backend: the notification relay, verified

    A shallow embedding of the four variants of the relay service
    (src/server.js holds the full variant and the single-send variant,
    src/unnamed/part_000 the in-memory variant and the persistent one):
    every route handler is a computation over an explicit world (process
    environment, PostgreSQL tables, the in-memory token set, the calls made
    to the push-delivery API) and returns the HTTP response it sends. *)

From Stdlib Require Import String List ZArith Bool Lia PrimFloat Uint63 Sorting.Permutation.
Import ListNotations.
Local Open Scope string_scope.
Local Open Scope Z_scope.
Local Open Scope list_scope.
Set Warnings "-register-all".

(** ** JavaScript values *)

(** A timestamp (TIMESTAMPTZ, a JS Date): microseconds since the epoch. *)
Definition time := Z.

(** The JavaScript values the handlers see: what [JSON.parse] produces, and
    the [Date] objects node-postgres returns for TIMESTAMPTZ columns.
    [undefined] is not a member: a possibly-undefined value is an
    [option value], [None] being [undefined]. *)
Inductive value : Type :=
| VNull
| VBool (b : bool)
| VNum (n : float)
| VStr (s : string)
| VArr (items : list value)
| VObj (fields : list (string * value))
| VDate (t : time).

Definition undefined : option value := None.

(** ToBoolean. *)
Definition truthy (v : option value) : bool :=
  match v with
  | None => false
  | Some VNull => false
  | Some (VBool b) => b
  | Some (VNum n) => negb (PrimFloat.is_zero n || PrimFloat.is_nan n)
  | Some (VStr s) => negb (String.eqb s "")
  | Some (VArr _) | Some (VObj _) | Some (VDate _) => true
  end.

Inductive js_type := TUndefined | TObject | TBoolean | TNumber | TString.

Definition typeof (v : option value) : js_type :=
  match v with
  | None => TUndefined
  | Some (VBool _) => TBoolean
  | Some (VNum _) => TNumber
  | Some (VStr _) => TString
  | Some VNull | Some (VArr _) | Some (VObj _) | Some (VDate _) => TObject
  end.

Definition is_string (v : option value) : bool :=
  match typeof v with TString => true | _ => false end.

(** [a || b]. *)
Definition or_else (a b : option value) : option value :=
  if truthy a then a else b.

(** [Array.isArray(v)]. *)
Definition Array_isArray (v : option value) : bool :=
  match v with Some (VArr _) => true | _ => false end.

Fixpoint assoc (k : string) (fields : list (string * value)) : option value :=
  match fields with
  | [] => None
  | (k', v) :: rest => if String.eqb k k' then Some v else assoc k rest
  end.

(** An object literal [{k1: e1, ..., kn: en}] on its way to [JSON.stringify]
    (every object the handlers build is only ever serialised, by [res.json]
    or as the body of the outbound call): a property whose value is
    [undefined] is left out. *)
Fixpoint defined (props : list (string * option value)) : list (string * value) :=
  match props with
  | [] => []
  | (k, None) :: rest => defined rest
  | (k, Some v) :: rest => (k, v) :: defined rest
  end.

Definition object (props : list (string * option value)) : value :=
  VObj (defined props).

(** [v.k] for a [v] that is neither [null] nor [undefined], and a [k] among
    the names the handlers read (data, status, message, details, token):
    an own property of an object, nothing on any other value. *)
Definition prop (v : value) (k : string) : option value :=
  match v with
  | VObj fields => assoc k fields
  | _ => None
  end.

(** A SERIAL value as the JS number node-postgres returns for it. *)
Definition number_of_Z (z : Z) : value := VNum (PrimFloat.of_uint63 (Uint63.of_Z z)).

(** ** The request *)

(** [req.body] after [express.json()]: the properties of the parsed JSON
    object ([{}] when the request carries no JSON; an array body has none
    of the properties the handlers read, so it behaves as [{}]). *)
Definition request_body := list (string * value).

(** [const { k } = req.body]. *)
Definition destructure (body : request_body) (k : string) : option value :=
  assoc k body.

(** ** The response *)

(** What [res.status(s).json(b)] sends; [res.json(b)] has status 200. *)
Record response := { status : Z; json : option value }.

(** ** The PostgreSQL tables *)

(** A value bound to a statement parameter: [null] and [undefined] are sent
    as SQL NULL ([None]). A TEXT cell written through a parameter is
    modelled by the parameter bound to it: for a string that is the cell's
    content, for any other value node-postgres sends a text encoding of it
    (42 is stored, and read back, as the text 42), which the model keeps as
    the value it encodes. What is proved of the content of a cell, or of a
    row read back, is therefore stated for strings. *)
Definition param (v : option value) : option value :=
  match v with
  | None | Some VNull => None
  | Some x => Some x
  end.

(** COALESCE(a, b). *)
Definition COALESCE (a b : option value) : option value :=
  match a with Some _ => a | None => b end.

Module ExpoTokens.
(** expo_tokens(id SERIAL PRIMARY KEY, token TEXT UNIQUE NOT NULL,
    platform TEXT, created_at, last_seen_at TIMESTAMPTZ DEFAULT NOW()) *)
Record row := {
  id : Z;
  token : string;
  platform : option value;
  created_at : time;
  last_seen_at : time
}.
End ExpoTokens.

Module NewsItems.
(** news_items(id SERIAL PRIMARY KEY, title TEXT NOT NULL,
    message TEXT NOT NULL, created_at TIMESTAMPTZ DEFAULT NOW()) *)
Record row := {
  id : Z;
  title : value;
  message : value;
  created_at : time
}.
End NewsItems.

(** The two tables, each with the sequence behind its SERIAL column. The
    order of a list is the order in which a scan returns the rows. *)
Record database := {
  expo_tokens : list ExpoTokens.row;
  expo_tokens_id_seq : Z;
  news_items : list NewsItems.row;
  news_items_id_seq : Z
}.

Definition empty_database : database :=
  {| expo_tokens := []; expo_tokens_id_seq := 1;
     news_items := []; news_items_id_seq := 1 |}.

(** ** The world and the handlers' monad *)

(** What [fetch] meets at the push-delivery API: no response at all, or a
    response whose body parses as JSON or does not. *)
Inductive http_response := NotJson | Json (data : value).
Inductive exchange := NetworkError | Responds (r : http_response).

Record world := {
  DATABASE_URL : option string;   (* process.env.DATABASE_URL *)
  db : database;
  faults : list bool;             (* whether the next statements fail *)
  tokens : list string;           (* the in-memory Set, in insertion order *)
  upstream : list exchange;       (* what the next outbound calls meet *)
  outbound : list value           (* the bodies posted so far, oldest first *)
}.

Definition with_db (d : database) (fs : list bool) (w : world) : world :=
  {| DATABASE_URL := DATABASE_URL w; db := d; faults := fs;
     tokens := tokens w; upstream := upstream w; outbound := outbound w |}.

Definition with_tokens (ts : list string) (w : world) : world :=
  {| DATABASE_URL := DATABASE_URL w; db := db w; faults := faults w;
     tokens := ts; upstream := upstream w; outbound := outbound w |}.

Definition with_call (posted : value) (w : world) : world :=
  {| DATABASE_URL := DATABASE_URL w; db := db w; faults := faults w;
     tokens := tokens w; upstream := tl (upstream w);
     outbound := outbound w ++ [posted] |}.

Inductive error := TypeError | FetchError | SyntaxError | DatabaseError.

Inductive result (A : Type) : Type :=
| Ok (a : A)
| Throw (e : error).
Arguments Ok {A} a.
Arguments Throw {A} e.

(** A computation that reads and writes the world and may throw. *)
Definition M (A : Type) : Type := world -> result A * world.

Definition ret {A} (a : A) : M A := fun w => (Ok a, w).

Definition throw {A} (e : error) : M A := fun w => (Throw e, w).

Definition bind {A B} (c : M A) (k : A -> M B) : M B :=
  fun w =>
    match c w with
    | (Ok a, w') => k a w'
    | (Throw e, w') => (Throw e, w')
    end.

(** [try { c } catch (err) { h }]. *)
Definition try_catch {A} (c : M A) (h : error -> M A) : M A :=
  fun w =>
    match c w with
    | (Ok a, w') => (Ok a, w')
    | (Throw e, w') => h e w'
    end.

Declare Scope js_scope.
Delimit Scope js_scope with js.
Notation "x <- c ;; k" := (bind c (fun x => k))
  (at level 61, c at next level, right associativity) : js_scope.
Notation "c ;;; k" := (bind c (fun _ => k))
  (at level 61, right associativity) : js_scope.
Local Open Scope js_scope.

(** [!process.env.DATABASE_URL]: unset, or set to the empty string. *)
Definition no_DATABASE_URL : M bool :=
  fun w =>
    (Ok (match DATABASE_URL w with
         | None => true
         | Some url => String.eqb url ""
         end), w).

(** [res.status(s).json(b)]. *)
Definition res_status_json (s : Z) (b : value) : M response :=
  ret {| status := s; json := Some b |}.

(** [res.json(b)]. *)
Definition res_json (b : value) : M response := res_status_json 200 b.

(** [v.k] where [v] may be [null] or [undefined]: a TypeError then. *)
Definition get (v : option value) (k : string) : M (option value) :=
  match v with
  | None | Some VNull => throw TypeError
  | Some x => ret (prop x k)
  end.

(** ** pool.query *)

(** The five statements the handlers send, with their bound parameters. *)
Inductive statement :=
| UpsertToken (p1 : string) (p2 : option value)
    (* INSERT INTO expo_tokens (token, platform) VALUES ($1, $2)
       ON CONFLICT (token) DO UPDATE SET last_seen_at = NOW(),
         platform = COALESCE($2, expo_tokens.platform) *)
| CountTokens      (* SELECT COUNT( * )::int AS count FROM expo_tokens *)
| SelectTokens     (* SELECT token FROM expo_tokens *)
| SelectNews       (* SELECT id, title, message, created_at AS "createdAt"
                      FROM news_items ORDER BY created_at DESC *)
| InsertNews (p1 p2 : option value).
    (* INSERT INTO news_items (title, message) VALUES ($1, $2)
       RETURNING id, title, message, created_at AS "createdAt" *)

Definition has_token (tok : string) (r : ExpoTokens.row) : bool :=
  String.eqb (ExpoTokens.token r) tok.

(** DO UPDATE SET last_seen_at = NOW(), platform = COALESCE($2, platform),
    on the row in conflict. *)
Definition do_update (now : time) (tok : string) (p2 : option value)
    (r : ExpoTokens.row) : ExpoTokens.row :=
  if has_token tok r then
    {| ExpoTokens.id := ExpoTokens.id r;
       ExpoTokens.token := ExpoTokens.token r;
       ExpoTokens.platform := COALESCE p2 (ExpoTokens.platform r);
       ExpoTokens.created_at := ExpoTokens.created_at r;
       ExpoTokens.last_seen_at := now |}
  else r.

(** INSERT ... ON CONFLICT (token) DO UPDATE. The sequence advances in
    both cases: the default of [id] is computed before the conflict is
    seen. A new row comes last in the scan. Where a scan finds a row that
    was updated PostgreSQL does not promise (it writes a new version of
    the row, which a scan may return later than before); the list keeps
    such a row in its place, and what is proved of a table after an update
    is stated up to the order of its rows. *)
Definition upsert_token (now : time) (tok : string) (p2 : option value)
    (d : database) : database :=
  {| expo_tokens :=
       if existsb (has_token tok) (expo_tokens d)
       then map (do_update now tok p2) (expo_tokens d)
       else expo_tokens d ++
            [{| ExpoTokens.id := expo_tokens_id_seq d;
                ExpoTokens.token := tok;
                ExpoTokens.platform := p2;
                ExpoTokens.created_at := now;
                ExpoTokens.last_seen_at := now |}];
     expo_tokens_id_seq := expo_tokens_id_seq d + 1;
     news_items := news_items d;
     news_items_id_seq := news_items_id_seq d |}.

Definition token_row (r : ExpoTokens.row) : value :=
  VObj [("token", VStr (ExpoTokens.token r))].

Definition news_row (r : NewsItems.row) : value :=
  VObj [("id", number_of_Z (NewsItems.id r));
        ("title", NewsItems.title r);
        ("message", NewsItems.message r);
        ("createdAt", VDate (NewsItems.created_at r))].

(** ORDER BY created_at DESC, as an insertion sort; rows of equal
    created_at (PostgreSQL promises no order among them) stay in scan
    order. *)
Fixpoint insert_desc (r : NewsItems.row) (sorted : list NewsItems.row)
    : list NewsItems.row :=
  match sorted with
  | [] => [r]
  | x :: rest =>
      if NewsItems.created_at x <=? NewsItems.created_at r
      then r :: x :: rest
      else x :: insert_desc r rest
  end.

Definition order_by_created_at_desc (rows : list NewsItems.row)
    : list NewsItems.row :=
  fold_right insert_desc [] rows.

Definition insert_news (now : time) (title message : value) (d : database)
    : NewsItems.row * database :=
  let r := {| NewsItems.id := news_items_id_seq d;
              NewsItems.title := title;
              NewsItems.message := message;
              NewsItems.created_at := now |} in
  (r, {| expo_tokens := expo_tokens d;
         expo_tokens_id_seq := expo_tokens_id_seq d;
         news_items := news_items d ++ [r];
         news_items_id_seq := news_items_id_seq d + 1 |}).

(** The rows a statement returns and the database it leaves, at time
    [now]; [None] when the statement itself is in error (NULL bound to a
    NOT NULL column). *)
Definition execute (now : time) (s : statement) (d : database)
    : option (list value * database) :=
  match s with
  | UpsertToken p1 p2 => Some ([], upsert_token now p1 p2 d)
  | CountTokens =>
      Some ([VObj [("count", number_of_Z (Z.of_nat (length (expo_tokens d))))]], d)
  | SelectTokens => Some (map token_row (expo_tokens d), d)
  | SelectNews =>
      Some (map news_row (order_by_created_at_desc (news_items d)), d)
  | InsertNews (Some title) (Some message) =>
      let (r, d') := insert_news now title message d in
      Some ([news_row r], d')
  | InsertNews _ _ => None
  end.

(** [await pool.query(sql, params)], giving [rows]. The statement fails
    (connection lost, table missing, a text the server refuses, ...) when
    the next fault flag says so, and then writes no row. (A statement that
    fails inside the server may have drawn from a sequence all the same:
    PostgreSQL does not take nextval back. The failure branch leaves the
    sequences alone, and what is proved after a failing INSERT or upsert
    speaks of the rows only.) *)
Definition pool_query (now : time) (s : statement) : M (list value) :=
  fun w =>
    match faults w with
    | true :: fs => (Throw DatabaseError, with_db (db w) fs w)
    | fs =>
        match execute now s (db w) with
        | Some (rows, d') => (Ok rows, with_db d' (tl fs) w)
        | None => (Throw DatabaseError, with_db (db w) (tl fs) w)
        end
    end.

(** ** fetch *)

(** [await fetch('https://exp.host/--/api/v2/push/send', {method: 'POST',
    ..., body: JSON.stringify(messages)})]: the call is made, and rejects
    when no response comes back. *)
Definition fetch_expo (messages : value) : M http_response :=
  fun w =>
    match upstream w with
    | Responds r :: _ => (Ok r, with_call messages w)
    | _ => (Throw FetchError, with_call messages w)
    end.

(** [await response.json()]. *)
Definition response_json (r : http_response) : M value :=
  match r with
  | Json data => ret data
  | NotJson => throw SyntaxError
  end.

(** ** Small pieces of JavaScript the handlers share *)

Definition yes : option value := Some (VBool true).
Definition no : option value := Some (VBool false).
Definition str (s : string) : option value := Some (VStr s).

(** [{ ok: false, error: msg }]. *)
Definition failure (msg : string) : value :=
  object [("ok", no); ("error", str msg)].

(** [v.length] of an array. *)
Definition array_length (v : option value) : Z :=
  match v with
  | Some (VArr items) => Z.of_nat (length items)
  | _ => 0
  end.

(** [v[0]] of an array. *)
Definition first (v : option value) : option value :=
  match v with
  | Some (VArr items) => nth_error items 0
  | _ => None
  end.

(** [v === s] for a string literal [s]. *)
Definition is_the_string (v : option value) (s : string) : bool :=
  match v with
  | Some (VStr s') => String.eqb s' s
  | _ => false
  end.

(** The string that a value of type string is (past a [typeof] test). *)
Definition the_string (v : option value) : string :=
  match v with
  | Some (VStr s) => s
  | _ => ""
  end.

(** A route handler: the time at which it runs (what NOW() returns to its
    statements) and [req.body] to the response it sends. *)
Definition handler := time -> request_body -> M response.

(** app.get('/'), the same in every variant. *)
Definition get_root : handler := fun _ _ =>
  res_json (object [("ok", yes); ("message", str "Festibal push backend werkt 🎉")]).

(** ** The in-memory variant (src/unnamed/part_000, first file) *)

Module InMemory.

(** tokens.add(token) *)
Definition tokens_add (token : string) : M unit :=
  fun w =>
    (Ok tt,
     if existsb (String.eqb token) (tokens w) then w
     else with_tokens (tokens w ++ [token]) w).

(** tokens.size *)
Definition tokens_size : M Z :=
  fun w => (Ok (Z.of_nat (length (tokens w))), w).

(** Array.from(tokens) *)
Definition Array_from_tokens : M (list string) :=
  fun w => (Ok (tokens w), w).

Definition sendToExpo (messages : value) : M response :=
  try_catch
    (response <- fetch_expo messages ;;
     data <- response_json response ;;
     data_data <- get (Some data) "data" ;;
     if negb (Array_isArray data_data) || (array_length data_data =? 0) then
       res_status_json 500
         (object [("ok", no); ("error", str "Ongeldige Expo push response");
                  ("expo", Some data)])
     else
       res_json (object [("ok", yes); ("tickets", data_data)]))
    (fun err =>
       res_status_json 500 (failure "Push failed (server error)")).

Definition post_register_token : handler := fun now req_body =>
  let token := destructure req_body "token" in
  if negb (truthy token) || negb (is_string token) then
    res_status_json 400 (failure "Ongeldig token")
  else
    tokens_add (the_string token) ;;;
    res_json (object [("ok", yes)]).

Definition post_send_notification : handler := fun now req_body =>
  let to := destructure req_body "to" in
  let title := destructure req_body "title" in
  let body := destructure req_body "body" in
  if negb (truthy to) || negb (truthy title) || negb (truthy body) then
    res_status_json 400 (failure "to, title en body zijn verplicht")
  else
    let messages := VArr [object [("to", to); ("title", title); ("body", body)]] in
    sendToExpo messages.

Definition post_broadcast : handler := fun now req_body =>
  let title := destructure req_body "title" in
  let body := destructure req_body "body" in
  if negb (truthy title) || negb (truthy body) then
    res_status_json 400 (failure "title en body zijn verplicht")
  else
    size <- tokens_size ;;
    if size =? 0 then
      res_status_json 400 (failure "Geen geregistreerde tokens om naar te sturen")
    else
      all <- Array_from_tokens ;;
      let messages :=
        VArr (map (fun to => object [("to", str to); ("title", title); ("body", body)])
                  all) in
      sendToExpo messages.

End InMemory.

(** ** The persistent variant (src/unnamed/part_000, second file) *)

Module Persistent.

Definition sendToExpo (messages : value) : M response :=
  try_catch
    (response <- fetch_expo messages ;;
     data <- response_json response ;;
     data_data <- get (Some data) "data" ;;
     if negb (Array_isArray data_data) || (array_length data_data =? 0) then
       res_status_json 500
         (object [("ok", no); ("error", str "Ongeldige Expo push response");
                  ("expo", Some data)])
     else
       res_json (object [("ok", yes); ("tickets", data_data)]))
    (fun err =>
       res_status_json 500 (failure "Push failed (server error)")).

Definition post_register_token : handler := fun now req_body =>
  let token := destructure req_body "token" in
  let platform := destructure req_body "platform" in
  if negb (truthy token) || negb (is_string token) then
    res_status_json 400 (failure "Ongeldig token")
  else
    unset <- no_DATABASE_URL ;;
    if unset then
      res_json
        (object [("ok", yes);
                 ("warning", str "Token niet persistent opgeslagen (geen DATABASE_URL).")])
    else
      try_catch
        (pool_query now
           (UpsertToken (the_string token) (param (or_else platform (Some VNull)))) ;;;
         rows <- pool_query now CountTokens ;;
         res_json (object [("ok", yes)]))
        (fun err =>
           res_status_json 500 (failure "DB error bij opslaan token")).

Definition post_broadcast : handler := fun now req_body =>
  let title := destructure req_body "title" in
  let body := destructure req_body "body" in
  if negb (truthy title) || negb (truthy body) then
    res_status_json 400 (failure "title en body zijn verplicht")
  else
    unset <- no_DATABASE_URL ;;
    if unset then
      res_status_json 500 (failure "DATABASE_URL ontbreekt, geen tokens beschikbaar.")
    else
      try_catch
        (rows <- pool_query now SelectTokens ;;
         if (Z.of_nat (length rows) =? 0) then
           res_status_json 400
             (failure "Geen geregistreerde tokens om naar te sturen")
         else
           let messages :=
             VArr (map (fun row =>
                          object [("to", prop row "token"); ("title", title);
                                  ("body", body)])
                       rows) in
           sendToExpo messages)
        (fun err =>
           res_status_json 500 (failure "DB error bij ophalen tokens")).

Definition post_send_notification : handler := fun now req_body =>
  let to := destructure req_body "to" in
  let title := destructure req_body "title" in
  let body := destructure req_body "body" in
  if negb (truthy to) || negb (truthy title) || negb (truthy body) then
    res_status_json 400 (failure "to, title en body zijn verplicht")
  else
    let messages := VArr [object [("to", to); ("title", title); ("body", body)]] in
    sendToExpo messages.

End Persistent.

(** ** The full variant (src/server.js, first file) *)

Module Full.

Definition sendToExpo (messages : value) : M response :=
  try_catch
    (response <- fetch_expo messages ;;
     data <- response_json response ;;
     data_data <- get (Some data) "data" ;;
     if negb (Array_isArray data_data) || (array_length data_data =? 0) then
       res_status_json 500
         (object [("ok", no); ("error", str "Ongeldige Expo push response");
                  ("expo", Some data)])
     else
       res_json (object [("ok", yes); ("tickets", data_data)]))
    (fun err =>
       res_status_json 500 (failure "Push failed (server error)")).

Definition get_news : handler := fun now req_body =>
  unset <- no_DATABASE_URL ;;
  if unset then
    res_status_json 500
      (failure "DATABASE_URL ontbreekt, geen databaseverbinding voor nieuws.")
  else
    try_catch
      (rows <- pool_query now SelectNews ;;
       res_json (VArr rows))
      (fun err =>
         res_status_json 500 (failure "DB error bij ophalen nieuws")).

Definition post_news : handler := fun now req_body =>
  unset <- no_DATABASE_URL ;;
  if unset then
    res_status_json 500
      (failure "DATABASE_URL ontbreekt, nieuws kan niet opgeslagen worden.")
  else
    let title := destructure req_body "title" in
    let message := destructure req_body "message" in
    if negb (truthy title) || negb (truthy message) then
      res_status_json 400 (failure "title en message zijn verplicht")
    else
      try_catch
        (rows <- pool_query now (InsertNews (param title) (param message)) ;;
         let created := nth_error rows 0 in
         ret {| status := 201; json := created |})
        (fun err =>
           res_status_json 500 (failure "DB error bij opslaan nieuws")).

Definition post_register_token : handler := fun now req_body =>
  let token := destructure req_body "token" in
  let platform := destructure req_body "platform" in
  if negb (truthy token) || negb (is_string token) then
    res_status_json 400 (failure "Ongeldig token")
  else
    unset <- no_DATABASE_URL ;;
    if unset then
      res_json
        (object [("ok", yes);
                 ("warning", str "Token niet persistent opgeslagen (geen DATABASE_URL).")])
    else
      try_catch
        (pool_query now
           (UpsertToken (the_string token) (param (or_else platform (Some VNull)))) ;;;
         rows <- pool_query now CountTokens ;;
         res_json (object [("ok", yes)]))
        (fun err =>
           res_status_json 500 (failure "DB error bij opslaan token")).

Definition post_broadcast : handler := fun now req_body =>
  let title := destructure req_body "title" in
  let body := destructure req_body "body" in
  if negb (truthy title) || negb (truthy body) then
    res_status_json 400 (failure "title en body zijn verplicht")
  else
    unset <- no_DATABASE_URL ;;
    if unset then
      res_status_json 500 (failure "DATABASE_URL ontbreekt, geen tokens beschikbaar.")
    else
      try_catch
        (rows <- pool_query now SelectTokens ;;
         if (Z.of_nat (length rows) =? 0) then
           res_status_json 400
             (failure "Geen geregistreerde tokens om naar te sturen")
         else
           let messages :=
             VArr (map (fun row =>
                          object [("to", prop row "token"); ("title", title);
                                  ("body", body)])
                       rows) in
           sendToExpo messages)
        (fun err =>
           res_status_json 500 (failure "DB error bij ophalen tokens")).

Definition post_send_notification : handler := fun now req_body =>
  let to := destructure req_body "to" in
  let title := destructure req_body "title" in
  let body := destructure req_body "body" in
  if negb (truthy to) || negb (truthy title) || negb (truthy body) then
    res_status_json 400 (failure "to, title en body zijn verplicht")
  else
    let messages := VArr [object [("to", to); ("title", title); ("body", body)]] in
    sendToExpo messages.

End Full.

(** ** The single-send variant (src/server.js, second file) *)

Module SingleSend.

Definition post_send_notification : handler := fun now req_body =>
  let to := destructure req_body "to" in
  let title := destructure req_body "title" in
  let body := destructure req_body "body" in
  if negb (truthy to) || negb (truthy title) || negb (truthy body) then
    res_status_json 400 (failure "to, title en body zijn verplicht")
  else
    let messages := VArr [object [("to", to); ("title", title); ("body", body)]] in
    try_catch
      (response <- fetch_expo messages ;;
       data <- response_json response ;;
       data_data <- get (Some data) "data" ;;
       if negb (Array_isArray data_data) || (array_length data_data =? 0) then
         res_status_json 500
           (object [("ok", no); ("error", str "Ongeldige Expo push response");
                    ("expo", Some data)])
       else
         let ticket := first data_data in
         ticket_status <- get ticket "status" ;;
         if is_the_string ticket_status "ok" then
           res_json (object [("ok", yes); ("ticket", ticket)])
         else
           ticket_message <- get ticket "message" ;;
           ticket_details <- get ticket "details" ;;
           res_status_json 400
             (object [("ok", no);
                      ("error", or_else ticket_message (str "Expo push error"));
                      ("details", or_else ticket_details (Some VNull))]))
      (fun err =>
         res_status_json 500 (failure "Push failed (server error)")).

End SingleSend.

(** ** The four applications *)

Inductive variant := full | single_send | in_memory | persistent.

Inductive route :=
| GET_root
| GET_news
| POST_news
| POST_register_token
| POST_broadcast
| POST_send_notification.

(** The routes each variant registers, with their handlers. *)
Definition app (v : variant) (r : route) : option handler :=
  match v, r with
  | _, GET_root => Some get_root
  | full, GET_news => Some Full.get_news
  | full, POST_news => Some Full.post_news
  | full, POST_register_token => Some Full.post_register_token
  | full, POST_broadcast => Some Full.post_broadcast
  | full, POST_send_notification => Some Full.post_send_notification
  | single_send, POST_send_notification => Some SingleSend.post_send_notification
  | in_memory, POST_register_token => Some InMemory.post_register_token
  | in_memory, POST_broadcast => Some InMemory.post_broadcast
  | in_memory, POST_send_notification => Some InMemory.post_send_notification
  | persistent, POST_register_token => Some Persistent.post_register_token
  | persistent, POST_broadcast => Some Persistent.post_broadcast
  | persistent, POST_send_notification => Some Persistent.post_send_notification
  | _, _ => None
  end.

(** ** Vocabulary of the statements *)

(** The store connection string is set (and not empty). *)
Definition store_configured (w : world) : bool :=
  match DATABASE_URL w with
  | Some url => negb (String.eqb url "")
  | None => false
  end.

(** The [n]-th statement from now does not fail. *)
Definition no_fault_at (n : nat) (w : world) : Prop :=
  nth n (faults w) false = false.

(** The handler [h] serves route [r] in some variant that keeps its tokens
    in PostgreSQL. *)
Definition on_postgres (r : route) (h : handler) : Prop :=
  app full r = Some h \/ app persistent r = Some h.

(** The one-message batch POST /send-notification posts. *)
Definition one_message (req_body : request_body) : value :=
  VArr [object [("to", destructure req_body "to");
                ("title", destructure req_body "title");
                ("body", destructure req_body "body")]].

(** The tokens variant [v] would broadcast to. *)
Definition recipients (v : variant) (w : world) : list string :=
  match v with
  | in_memory => tokens w
  | _ => map ExpoTokens.token (expo_tokens (db w))
  end.

(** The store of variant [v] is there to be read: nothing to ask of the
    in-memory set; for PostgreSQL, the connection is configured and the
    next statement goes through. *)
Definition store_answers (v : variant) (w : world) : Prop :=
  match v with
  | in_memory => True
  | _ => store_configured w = true /\ no_fault_at 0 w
  end.

(** The UNIQUE constraint on expo_tokens.token. *)
Definition unique_tokens (d : database) : Prop :=
  NoDup (map ExpoTokens.token (expo_tokens d)).

(** The batch POST /broadcast posts to the tokens [tos]. *)
Definition batch (req_body : request_body) (tos : list string) : value :=
  VArr (map (fun to => object [("to", str to);
                               ("title", destructure req_body "title");
                               ("body", destructure req_body "body")])
            tos).

(** ** Scenarios *)

(** A process without DATABASE_URL, and one with it; fresh tables, no
    failing statement, nobody answering at the push-delivery API. *)
Definition offline : world :=
  {| DATABASE_URL := None; db := empty_database; faults := [];
     tokens := []; upstream := []; outbound := [] |}.

Definition online : world :=
  {| DATABASE_URL := Some "postgres://festibal"; db := empty_database;
     faults := []; tokens := []; upstream := []; outbound := [] |}.

(** The world [w] with the push-delivery API about to answer [reply]. *)
Definition answering (reply : exchange) (w : world) : world :=
  {| DATABASE_URL := DATABASE_URL w; db := db w; faults := faults w;
     tokens := tokens w; upstream := [reply]; outbound := outbound w |}.

(** The upstream reply {data: [{status: "error", message:
    "DeviceNotRegistered"}]}. *)
Definition device_not_registered : value :=
  VObj [("data", VArr [VObj [("status", VStr "error");
                             ("message", VStr "DeviceNotRegistered")]])].

Definition a_token : string := "ExponentPushToken[festibal]".

(** One device registered, in the table and in the set. *)
Definition one_device : world :=
  {| DATABASE_URL := Some "postgres://festibal";
     db := {| expo_tokens := [{| ExpoTokens.id := 1;
                                 ExpoTokens.token := a_token;
                                 ExpoTokens.platform := Some (VStr "ios");
                                 ExpoTokens.created_at := 0;
                                 ExpoTokens.last_seen_at := 0 |}];
              expo_tokens_id_seq := 2;
              news_items := [];
              news_items_id_seq := 1 |};
     faults := []; tokens := [a_token]; upstream := []; outbound := [] |}.

Definition a_notification : request_body :=
  [("to", VStr a_token); ("title", VStr "Festibal"); ("body", VStr "De poort is open")].

Definition an_announcement : request_body :=
  [("title", VStr "Festibal"); ("body", VStr "De poort is open")].

Definition a_registration : request_body :=
  [("token", VStr a_token); ("platform", VStr "android")].

(** The world [w] with [fs] deciding which of the next statements fail. *)
Definition failing (fs : list bool) (w : world) : world :=
  {| DATABASE_URL := DATABASE_URL w; db := db w; faults := fs;
     tokens := tokens w; upstream := upstream w; outbound := outbound w |}.

(** Three news items, not stored in the order of their dates. *)
Definition some_news : world :=
  {| DATABASE_URL := Some "postgres://festibal";
     db := {| expo_tokens := []; expo_tokens_id_seq := 1;
              news_items :=
                [{| NewsItems.id := 1; NewsItems.title := VStr "Poort";
                    NewsItems.message := VStr "open";
                    NewsItems.created_at := 10 |};
                 {| NewsItems.id := 2; NewsItems.title := VStr "Regen";
                    NewsItems.message := VStr "poncho mee";
                    NewsItems.created_at := 30 |};
                 {| NewsItems.id := 3; NewsItems.title := VStr "Podium";
                    NewsItems.message := VStr "wijziging";
                    NewsItems.created_at := 20 |}];
              news_items_id_seq := 4 |};
     faults := []; tokens := []; upstream := []; outbound := [] |}.

(** The upstream reply {data: [{status: "ok", id: "t1"}, null]}. *)
Definition accepted : value :=
  VObj [("data", VArr [VObj [("status", VStr "ok"); ("id", VStr "t1")]; VNull])].

(** ** Vocabulary of the properties that hold of every handler *)

(** Whatever [c] returns or throws, the world it leaves is related by [R]
    to the world it found. *)
Definition preserves {A} (R : world -> world -> Prop) (c : M A) : Prop :=
  forall w, R w (snd (c w)).

(** If [c] returns, what it returns satisfies [P]. *)
Definition yields {A} (P : A -> Prop) (c : M A) : Prop :=
  forall w, match fst (c w) with Ok a => P a | Throw _ => True end.

(** [c] does return, and what it returns satisfies [P]. *)
Definition answers {A} (P : A -> Prop) (c : M A) : Prop :=
  forall w, exists a, fst (c w) = Ok a /\ P a.

(** A response with one of the four statuses the handlers use and a JSON
    body; a 400 or 500 body is an object with ok: false and an error. *)
Definition well_formed (resp : response) : Prop :=
  In (status resp) [200; 201; 400; 500]
  /\ exists body,
       json resp = Some body
       /\ (status resp = 400 \/ status resp = 500 ->
           prop body "ok" = Some (VBool false) /\ prop body "error" <> None).

(** The constraints of the schema: token UNIQUE, id PRIMARY KEY in both
    tables, and each sequence ahead of the ids it has given out. *)
Definition consistent (d : database) : Prop :=
  NoDup (map ExpoTokens.token (expo_tokens d))
  /\ NoDup (map ExpoTokens.id (expo_tokens d))
  /\ Forall (fun r => ExpoTokens.id r < expo_tokens_id_seq d) (expo_tokens d)
  /\ NoDup (map NewsItems.id (news_items d))
  /\ Forall (fun r => NewsItems.id r < news_items_id_seq d) (news_items d).

(** The constraints of the tables and the set-ness of the in-memory
    tokens carry over from [w] to [w']. *)
Definition keeps_constraints (w w' : world) : Prop :=
  consistent (db w) /\ NoDup (tokens w) ->
  consistent (db w') /\ NoDup (tokens w').

(** The columns of an expo_tokens row that no statement rewrites. *)
Definition identity (r : ExpoTokens.row) : Z * string * time :=
  (ExpoTokens.id r, ExpoTokens.token r, ExpoTokens.created_at r).

(** [after] is [before] with rows added at the end. *)
Definition grows {A} (before after : list A) : Prop :=
  exists more, after = before ++ more.

(** Every element of [before] is in [after], as often as it was, wherever
    it stands now. *)
Definition kept {A} (before after : list A) : Prop :=
  exists more, Permutation after (before ++ more).

(** Nothing stored is removed or rewritten: every news row and the
    identity of every token row are still in their table (the order of a
    scan aside: PostgreSQL promises none, least of all for a row it has
    updated); the in-memory set, whose order is JavaScript's, only grows
    at its end. *)
Definition keeps_rows (w w' : world) : Prop :=
  kept (news_items (db w)) (news_items (db w'))
  /\ kept (map identity (expo_tokens (db w))) (map identity (expo_tokens (db w')))
  /\ grows (tokens w) (tokens w').

(** A number that [JSON.stringify] writes and [JSON.parse] reads back as
    itself: not NaN or an infinity (written null), not -0 (written 0). *)
Definition number_stable (n : float) : bool :=
  match PrimFloat.classify n with
  | FloatClass.NaN | FloatClass.PInf | FloatClass.NInf | FloatClass.NZero =>
      false
  | _ => true
  end.

(** A value that [JSON.stringify] writes and [JSON.parse] reads back as
    itself: its numbers are stable and it holds no Date. *)
Fixpoint json_stable (v : value) : bool :=
  match v with
  | VNull | VBool _ | VStr _ => true
  | VNum n => number_stable n
  | VArr items => forallb json_stable items
  | VObj fields => forallb (fun field => json_stable (snd field)) fields
  | VDate _ => false
  end.

(** The stores and the environment are as they were. *)
Definition same_stores (w w' : world) : Prop :=
  db w' = db w /\ tokens w' = tokens w /\ DATABASE_URL w' = DATABASE_URL w.

(** No call went out. *)
Definition no_call (w w' : world) : Prop := outbound w' = outbound w.

(** No call went out, or one. *)
Definition at_most_one_call (w w' : world) : Prop :=
  outbound w' = outbound w \/ exists posted, outbound w' = outbound w ++ [posted].

(** [rows] by created_at, newest first. *)
Fixpoint newest_first (rows : list NewsItems.row) : Prop :=
  match rows with
  | [] => True
  | r :: rest =>
      Forall (fun r' => NewsItems.created_at r' <= NewsItems.created_at r) rest
      /\ newest_first rest
  end.

(** * Properties of the handlers *)

Lemma no_DATABASE_URL_run (w : world) :
  no_DATABASE_URL w = (Ok (negb (store_configured w)), w).
Proof.
  unfold no_DATABASE_URL, store_configured.
  destruct (DATABASE_URL w) as [url|]; [|reflexivity].
  now rewrite negb_involutive.
Qed.

Lemma bind_no_DATABASE_URL {A} (k : bool -> M A) (w : world) :
  bind no_DATABASE_URL k w = k (negb (store_configured w)) w.
Proof. unfold bind. now rewrite no_DATABASE_URL_run. Qed.

Lemma bind_configured {A} (k : bool -> M A) (w : world) :
  store_configured w = true ->
  bind no_DATABASE_URL k w = k false w.
Proof. intros H. now rewrite bind_no_DATABASE_URL, H. Qed.

Lemma register_token_handlers (v : variant) (h : handler) :
  app v POST_register_token = Some h ->
  h = Full.post_register_token \/ h = InMemory.post_register_token.
Proof.
  destruct v; simpl; intros E; inversion E; auto.
Qed.

Lemma send_notification_handlers (v : variant) (h : handler) :
  app v POST_send_notification = Some h ->
  h = Full.post_send_notification \/ h = SingleSend.post_send_notification.
Proof.
  destruct v; simpl; intros E; inversion E; auto.
Qed.

Lemma on_postgres_register_token (h : handler) :
  on_postgres POST_register_token h -> h = Full.post_register_token.
Proof. intros [E|E]; simpl in E; now inversion E. Qed.

Lemma invalid_token_guard (token : option value) :
  token = None \/ token = Some (VStr "") \/ is_string token = false ->
  negb (truthy token) || negb (is_string token) = true.
Proof.
  intros [->|[->|E]]; try reflexivity.
  rewrite E. apply orb_true_r.
Qed.

Lemma valid_token_guard (tok : string) :
  tok <> "" ->
  negb (truthy (Some (VStr tok))) || negb (is_string (Some (VStr tok))) = false.
Proof.
  intros Hne. simpl.
  destruct (String.eqb_spec tok ""); [contradiction|reflexivity].
Qed.

Section Validation.

Variables (now : time) (req_body : request_body) (w : world).

(** C3. POST /register-token with a token that is absent, the empty string
    or not a string is answered 400 "Ongeldig token", in every variant that
    has the route and whatever the store configuration; nothing changes. *)
Theorem register_token_rejects_invalid_token (v : variant) (h : handler) :
  app v POST_register_token = Some h ->
  destructure req_body "token" = None \/
  destructure req_body "token" = Some (VStr "") \/
  is_string (destructure req_body "token") = false ->
  h now req_body w =
    (Ok {| status := 400; json := Some (failure "Ongeldig token") |}, w).
Proof.
  intros Hroute Hbad.
  apply invalid_token_guard in Hbad.
  destruct (register_token_handlers _ _ Hroute) as [-> | ->].
  - unfold Full.post_register_token. now rewrite Hbad.
  - unfold InMemory.post_register_token. now rewrite Hbad.
Qed.

(** C7. POST /register-token with a non-empty string token while no store
    connection is configured is answered 200 with ok: true and a warning,
    and leaves the world, the tables included, as it was. *)
Theorem register_token_degraded_mode (h : handler) (tok : string) :
  on_postgres POST_register_token h ->
  destructure req_body "token" = Some (VStr tok) ->
  tok <> "" ->
  store_configured w = false ->
  h now req_body w =
    (Ok {| status := 200;
           json := Some (VObj [("ok", VBool true);
                               ("warning",
                                VStr "Token niet persistent opgeslagen (geen DATABASE_URL).")]) |},
     w).
Proof.
  intros Hroute Htok Hne Hunset.
  rewrite (on_postgres_register_token _ Hroute).
  unfold Full.post_register_token.
  rewrite Htok, (valid_token_guard _ Hne), bind_no_DATABASE_URL, Hunset.
  reflexivity.
Qed.

(** C9. POST /send-notification with to, title or body missing (or
    otherwise falsy) is answered 400 in every variant, and the world is
    left as it was: no call to the push-delivery API is made. *)
Theorem send_notification_missing_field_no_call (v : variant) (h : handler) :
  app v POST_send_notification = Some h ->
  truthy (destructure req_body "to") = false \/
  truthy (destructure req_body "title") = false \/
  truthy (destructure req_body "body") = false ->
  h now req_body w =
    (Ok {| status := 400;
           json := Some (failure "to, title en body zijn verplicht") |}, w)
  /\ outbound (snd (h now req_body w)) = outbound w.
Proof.
  intros Hroute Hmissing.
  assert (Hguard : negb (truthy (destructure req_body "to"))
                   || negb (truthy (destructure req_body "title"))
                   || negb (truthy (destructure req_body "body")) = true).
  { destruct Hmissing as [E|[E|E]]; rewrite E; simpl;
      rewrite ?orb_true_r; reflexivity. }
  assert (Hrun : h now req_body w =
    (Ok {| status := 400;
           json := Some (failure "to, title en body zijn verplicht") |}, w)).
  { destruct (send_notification_handlers _ _ Hroute) as [-> | ->].
    - unfold Full.post_send_notification. now rewrite Hguard.
    - unfold SingleSend.post_send_notification. now rewrite Hguard. }
  split; [exact Hrun | now rewrite Hrun].
Qed.

End Validation.

Section CreateNews.

Variables (now : time) (req_body : request_body) (w : world).

(** C2, amended. POST /news (full variant) with title or message absent
    (or otherwise falsy) is answered 400 when the store is configured; when
    it is not, the configuration check comes first and the answer is 500.
    Nothing changes in either case. *)
Theorem create_news_missing_field :
  truthy (destructure req_body "title") = false \/
  truthy (destructure req_body "message") = false ->
  Full.post_news now req_body w =
    (Ok (if store_configured w
         then {| status := 400;
                 json := Some (failure "title en message zijn verplicht") |}
         else {| status := 500;
                 json := Some (failure "DATABASE_URL ontbreekt, nieuws kan niet opgeslagen worden.") |}),
     w).
Proof.
  intros Hmissing.
  unfold Full.post_news. rewrite bind_no_DATABASE_URL.
  destruct (store_configured w); simpl; [|reflexivity].
  destruct Hmissing as [E|E]; rewrite E; simpl;
    rewrite ?orb_true_r; reflexivity.
Qed.

End CreateNews.

Section PushForwarding.

Variables (messages : value) (w : world).

Ltac meet_upstream H :=
  unfold try_catch, bind, fetch_expo; rewrite H; simpl.

Lemma sendToExpo_transport_failure :
  match upstream w with
  | Responds (Json _) :: _ => False
  | _ => True
  end ->
  Full.sendToExpo messages w =
    (Ok {| status := 500; json := Some (failure "Push failed (server error)") |},
     with_call messages w).
Proof.
  intros Hup. unfold Full.sendToExpo, try_catch, bind, fetch_expo.
  destruct (upstream w) as [|[|[|data]] rest]; simpl; try reflexivity.
  contradiction.
Qed.

Lemma sendToExpo_null (rest : list exchange) :
  upstream w = Responds (Json VNull) :: rest ->
  Full.sendToExpo messages w =
    (Ok {| status := 500; json := Some (failure "Push failed (server error)") |},
     with_call messages w).
Proof.
  intros Hup. unfold Full.sendToExpo. meet_upstream Hup. reflexivity.
Qed.

Lemma sendToExpo_tickets (data ticket : value) (more : list value)
    (rest : list exchange) :
  upstream w = Responds (Json data) :: rest ->
  prop data "data" = Some (VArr (ticket :: more)) ->
  Full.sendToExpo messages w =
    (Ok {| status := 200;
           json := Some (VObj [("ok", VBool true);
                               ("tickets", VArr (ticket :: more))]) |},
     with_call messages w).
Proof.
  intros Hup Hdata. unfold Full.sendToExpo. meet_upstream Hup.
  destruct data; try discriminate Hdata.
  simpl in *. unfold bind, ret. simpl. rewrite Hdata. reflexivity.
Qed.

Lemma sendToExpo_no_tickets (data : value) (rest : list exchange) :
  upstream w = Responds (Json data) :: rest ->
  data <> VNull ->
  (forall items, prop data "data" = Some (VArr items) -> items = []) ->
  Full.sendToExpo messages w =
    (Ok {| status := 500;
           json := Some (VObj [("ok", VBool false);
                               ("error", VStr "Ongeldige Expo push response");
                               ("expo", data)]) |},
     with_call messages w).
Proof.
  intros Hup Hnull Hempty.
  assert (Hget : get (Some data) "data" = ret (prop data "data"))
    by (destruct data; try reflexivity; contradiction).
  unfold Full.sendToExpo, try_catch, bind, fetch_expo.
  rewrite Hup. cbv beta iota. unfold response_json, ret. cbv beta iota.
  rewrite Hget. unfold ret.
  destruct (prop data "data") as [[| | | |items| |]|] eqn:Hdata; try reflexivity.
  rewrite (Hempty items eq_refl). reflexivity.
Qed.

(** Push forwarding, case by case. Whatever the push-delivery API answers,
    [sendToExpo] (the same in the full, persistent and in-memory variants)
    makes one call and: for a reply other than null whose data is not an
    array or is an empty array, answers 500 with the raw reply under expo;
    for a reply whose data is a non-empty array, answers 200 with ok: true
    and that array as tickets; for a network error or a body that is not
    JSON, answers the plain 500 "Push failed", and so it does for the
    reply null, on which reading data throws. *)
Theorem push_forwarding_outcomes (send : value -> M response) :
  In send [Full.sendToExpo; Persistent.sendToExpo; InMemory.sendToExpo] ->
  (forall data rest,
     upstream w = Responds (Json data) :: rest ->
     data <> VNull ->
     (forall items, prop data "data" = Some (VArr items) -> items = []) ->
     send messages w =
       (Ok {| status := 500;
              json := Some (VObj [("ok", VBool false);
                                  ("error", VStr "Ongeldige Expo push response");
                                  ("expo", data)]) |},
        with_call messages w))
  /\ (forall data ticket more rest,
        upstream w = Responds (Json data) :: rest ->
        prop data "data" = Some (VArr (ticket :: more)) ->
        send messages w =
          (Ok {| status := 200;
                 json := Some (VObj [("ok", VBool true);
                                     ("tickets", VArr (ticket :: more))]) |},
           with_call messages w))
  /\ (forall rest,
        upstream w = [] \/ upstream w = NetworkError :: rest \/
        upstream w = Responds NotJson :: rest \/
        upstream w = Responds (Json VNull) :: rest ->
        send messages w =
          (Ok {| status := 500;
                 json := Some (failure "Push failed (server error)") |},
           with_call messages w)).
Proof.
  intros Hsend.
  assert (send = Full.sendToExpo) as ->.
  { simpl in Hsend. destruct Hsend as [<-|[<-|[<-|[]]]]; reflexivity. }
  split; [|split].
  - intros. eapply sendToExpo_no_tickets; eauto.
  - intros. eapply sendToExpo_tickets; eauto.
  - intros rest [H|[H|[H|H]]].
    + apply sendToExpo_transport_failure. now rewrite H.
    + apply sendToExpo_transport_failure. now rewrite H.
    + apply sendToExpo_transport_failure. now rewrite H.
    + eapply sendToExpo_null; eauto.
Qed.

End PushForwarding.

Lemma pool_query_run (now : time) (s : statement) (w : world) :
  no_fault_at 0 w ->
  pool_query now s w =
    match execute now s (db w) with
    | Some (rows, d') => (Ok rows, with_db d' (tl (faults w)) w)
    | None => (Throw DatabaseError, with_db (db w) (tl (faults w)) w)
    end.
Proof.
  unfold no_fault_at, pool_query.
  destruct (faults w) as [|[] fs]; simpl; intros H;
    try discriminate H; reflexivity.
Qed.

Lemma bind_pool_query {A} (now : time) (s : statement)
    (k : list value -> M A) (w : world) :
  no_fault_at 0 w ->
  bind (pool_query now s) k w =
    match execute now s (db w) with
    | Some (rows, d') => k rows (with_db d' (tl (faults w)) w)
    | None => (Throw DatabaseError, with_db (db w) (tl (faults w)) w)
    end.
Proof.
  intros H. unfold bind. rewrite pool_query_run by assumption.
  now destruct (execute now s (db w)) as [[rows d']|].
Qed.

Lemma sendToExpo_world (messages : value) (w : world) :
  snd (Full.sendToExpo messages w) = with_call messages w.
Proof.
  unfold Full.sendToExpo, try_catch, bind, fetch_expo.
  destruct (upstream w) as [|[|[|data]] rest]; simpl; try reflexivity.
  destruct data; simpl; try reflexivity.
  unfold ret.
  destruct (assoc "data" fields) as [[| | | |items| |]|];
    try reflexivity.
  destruct items; reflexivity.
Qed.

Lemma send_notification_guard (req_body : request_body) :
  truthy (destructure req_body "to") = true ->
  truthy (destructure req_body "title") = true ->
  truthy (destructure req_body "body") = true ->
  negb (truthy (destructure req_body "to"))
  || negb (truthy (destructure req_body "title"))
  || negb (truthy (destructure req_body "body")) = false.
Proof. now intros -> -> ->. Qed.

Section UpstreamRejection.

Variables (now : time) (req_body : request_body) (w : world).
Variables (data ticket : value) (more : list value) (rest : list exchange).

Hypothesis to_given : truthy (destructure req_body "to") = true.
Hypothesis title_given : truthy (destructure req_body "title") = true.
Hypothesis body_given : truthy (destructure req_body "body") = true.
Hypothesis reply : upstream w = Responds (Json data) :: rest.
Hypothesis tickets : prop data "data" = Some (VArr (ticket :: more)).

Lemma forwarded_send_notification :
  Full.post_send_notification now req_body w =
    (Ok {| status := 200;
           json := Some (VObj [("ok", VBool true);
                               ("tickets", VArr (ticket :: more))]) |},
     with_call (one_message req_body) w).
Proof.
  unfold Full.post_send_notification.
  rewrite send_notification_guard by assumption.
  apply (sendToExpo_tickets _ _ data ticket more rest); assumption.
Qed.

(** C5, amended. A /send-notification request with to, title and body
    whose upstream reply carries a non-empty ticket array, the first ticket
    (not null) having a status other than "ok": the single-send variant
    answers 400 with the ticket's message (or "Expo push error") and its
    details (or null); the full, persistent and in-memory variants do not
    look at the tickets and answer 200 with ok: true and the whole array.
    One call is made in every variant. *)
Theorem upstream_rejection_by_variant :
  ticket <> VNull ->
  is_the_string (prop ticket "status") "ok" = false ->
  SingleSend.post_send_notification now req_body w =
    (Ok {| status := 400;
           json := Some (object
                     [("ok", no);
                      ("error", or_else (prop ticket "message")
                                        (str "Expo push error"));
                      ("details", or_else (prop ticket "details")
                                          (Some VNull))]) |},
     with_call (one_message req_body) w)
  /\ forall v h,
       v <> single_send ->
       app v POST_send_notification = Some h ->
       h now req_body w =
         (Ok {| status := 200;
                json := Some (VObj [("ok", VBool true);
                                    ("tickets", VArr (ticket :: more))]) |},
          with_call (one_message req_body) w).
Proof.
  intros Hnull Hstatus. split.
  - unfold SingleSend.post_send_notification.
    rewrite send_notification_guard by assumption.
    unfold try_catch, bind, fetch_expo. rewrite reply. cbv beta iota.
    unfold response_json, ret. cbv beta iota.
    destruct data; try discriminate tickets.
    simpl in tickets. simpl get. unfold ret. rewrite tickets.
    assert (Hget : forall k, get (Some ticket) k = ret (prop ticket k))
      by (intros k; destruct ticket; try reflexivity; contradiction).
    simpl negb. simpl first. cbv beta iota.
    rewrite !Hget. unfold ret. rewrite Hstatus. reflexivity.
  - intros v h Hv Hroute.
    destruct v; try contradiction; simpl in Hroute; inversion Hroute;
      apply forwarded_send_notification.
Qed.

End UpstreamRejection.

Lemma broadcast_guard (req_body : request_body) :
  truthy (destructure req_body "title") = true ->
  truthy (destructure req_body "body") = true ->
  negb (truthy (destructure req_body "title"))
  || negb (truthy (destructure req_body "body")) = false.
Proof. now intros -> ->. Qed.

Section Broadcast.

Variables (now : time) (req_body : request_body) (w : world).

Hypothesis title_given : truthy (destructure req_body "title") = true.
Hypothesis body_given : truthy (destructure req_body "body") = true.

(** C6. POST /broadcast with title and body, the store configured and
    answering (or the in-memory variant), and no token registered, is
    answered 400 "Geen geregistreerde tokens om naar te sturen"; no call
    goes out. *)
Theorem broadcast_without_tokens (v : variant) (h : handler) :
  app v POST_broadcast = Some h ->
  store_answers v w ->
  recipients v w = [] ->
  fst (h now req_body w) =
    Ok {| status := 400;
          json := Some (failure "Geen geregistreerde tokens om naar te sturen") |}
  /\ outbound (snd (h now req_body w)) = outbound w.
Proof.
  intros Hroute Hstore Hnone.
  assert (Hpg : store_configured w = true -> no_fault_at 0 w ->
                expo_tokens (db w) = [] ->
                Full.post_broadcast now req_body w =
                  (Ok {| status := 400;
                         json := Some (failure "Geen geregistreerde tokens om naar te sturen") |},
                   with_db (db w) (tl (faults w)) w)).
  { intros Hconf Hfault Hrows. unfold Full.post_broadcast.
    rewrite broadcast_guard, bind_configured by assumption.
    unfold try_catch. rewrite bind_pool_query by assumption.
    simpl. rewrite Hrows. reflexivity. }
  destruct v; simpl in Hroute; inversion Hroute; subst h; clear Hroute;
    simpl in Hstore, Hnone; try apply map_eq_nil in Hnone.
  - destruct Hstore as [Hconf Hfault]. rewrite Hpg by assumption. now split.
  - unfold InMemory.post_broadcast.
    rewrite broadcast_guard by assumption.
    unfold bind, InMemory.tokens_size. rewrite Hnone. now split.
  - destruct Hstore as [Hconf Hfault].
    change Persistent.post_broadcast with Full.post_broadcast.
    rewrite Hpg by assumption. now split.
Qed.

End Broadcast.

Section Upsert.

Variables (now : time) (tok : string) (p2 : option value).

Lemma has_token_do_update (r : ExpoTokens.row) :
  has_token tok (do_update now tok p2 r) = has_token tok r.
Proof.
  unfold do_update. destruct (has_token tok r) eqn:E; [|exact E].
  exact E.
Qed.

Lemma token_do_update (r : ExpoTokens.row) :
  ExpoTokens.token (do_update now tok p2 r) = ExpoTokens.token r.
Proof. unfold do_update. now destruct (has_token tok r). Qed.

Lemma filter_do_update (rows : list ExpoTokens.row) :
  filter (has_token tok) (map (do_update now tok p2) rows) =
  map (do_update now tok p2) (filter (has_token tok) rows).
Proof.
  induction rows as [|r rows IH]; [reflexivity|].
  simpl. rewrite has_token_do_update.
  destruct (has_token tok r); simpl; now rewrite IH.
Qed.

Lemma filter_absent (rows : list ExpoTokens.row) :
  existsb (has_token tok) rows = false ->
  filter (has_token tok) rows = [].
Proof.
  induction rows as [|r rows IH]; [reflexivity|].
  simpl. destruct (has_token tok r); [discriminate|exact IH].
Qed.

Lemma absent_not_in (rows : list ExpoTokens.row) :
  existsb (has_token tok) rows = false ->
  ~ In tok (map ExpoTokens.token rows).
Proof.
  induction rows as [|r rows IH]; simpl; [tauto|].
  unfold has_token at 1.
  destruct (String.eqb_spec (ExpoTokens.token r) tok) as [E|E];
    [discriminate|].
  intros Habsent [Hin|Hin]; [contradiction|now apply IH].
Qed.

Lemma filter_present (rows : list ExpoTokens.row) :
  NoDup (map ExpoTokens.token rows) ->
  existsb (has_token tok) rows = true ->
  exists r, filter (has_token tok) rows = [r].
Proof.
  induction rows as [|r rows IH]; simpl; [discriminate|].
  intros Hnodup Hex. inversion Hnodup as [|x xs Hnotin Hrest]; subst.
  destruct (has_token tok r) eqn:E.
  - exists r. f_equal. apply filter_absent.
    destruct (existsb (has_token tok) rows) eqn:Hex'; [|reflexivity].
    exfalso. apply Hnotin.
    apply existsb_exists in Hex'. destruct Hex' as [r' [Hin Hr']].
    unfold has_token in E, Hr'.
    apply String.eqb_eq in E. apply String.eqb_eq in Hr'.
    rewrite E, <- Hr'. now apply in_map.
  - simpl in Hex. now apply IH.
Qed.

Lemma upsert_token_unique (d : database) :
  unique_tokens d -> unique_tokens (upsert_token now tok p2 d).
Proof.
  unfold unique_tokens, upsert_token. simpl.
  destruct (existsb (has_token tok) (expo_tokens d)) eqn:Hex; intros Hnodup.
  - rewrite map_map.
    erewrite map_ext; [exact Hnodup|]. intros r. apply token_do_update.
  - rewrite map_app. simpl.
    apply NoDup_app; [exact Hnodup|constructor; [tauto|constructor]|].
    intros x Hin [<-|[]]. now apply (absent_not_in _ Hex).
Qed.

(** After the upsert there is exactly one row for the token: the row that
    was there, seen again, or a new one. *)
Lemma upsert_token_row (d : database) :
  unique_tokens d ->
  exists r,
    filter (has_token tok) (expo_tokens (upsert_token now tok p2 d)) = [r]
    /\ ExpoTokens.last_seen_at r = now.
Proof.
  unfold unique_tokens, upsert_token. simpl. intros Hnodup.
  destruct (existsb (has_token tok) (expo_tokens d)) eqn:Hex.
  - destruct (filter_present _ Hnodup Hex) as [r0 Hr0].
    exists (do_update now tok p2 r0).
    rewrite filter_do_update, Hr0. split; [reflexivity|].
    assert (Hin : In r0 (filter (has_token tok) (expo_tokens d)))
      by (rewrite Hr0; now left).
    apply filter_In in Hin. destruct Hin as [_ Hhas].
    unfold do_update. now rewrite Hhas.
  - rewrite filter_app, (filter_absent _ Hex). simpl.
    unfold has_token at 1. simpl. rewrite String.eqb_refl.
    eexists; split; reflexivity.
Qed.

(** On a table that holds one row for the token, the upsert rewrites that
    row: last_seen_at is now, platform is the parameter unless it is
    NULL, the rest stays. *)
Lemma upsert_token_again (d : database) (r1 : ExpoTokens.row) :
  filter (has_token tok) (expo_tokens d) = [r1] ->
  filter (has_token tok) (expo_tokens (upsert_token now tok p2 d)) =
    [{| ExpoTokens.id := ExpoTokens.id r1;
        ExpoTokens.token := ExpoTokens.token r1;
        ExpoTokens.platform := COALESCE p2 (ExpoTokens.platform r1);
        ExpoTokens.created_at := ExpoTokens.created_at r1;
        ExpoTokens.last_seen_at := now |}].
Proof.
  intros Hr1. unfold upsert_token. simpl.
  assert (Hin : In r1 (filter (has_token tok) (expo_tokens d)))
    by (rewrite Hr1; now left).
  apply filter_In in Hin. destruct Hin as [Hin Hhas].
  assert (Hex : existsb (has_token tok) (expo_tokens d) = true)
    by (apply existsb_exists; now exists r1).
  rewrite Hex, filter_do_update, Hr1. simpl.
  unfold do_update. now rewrite Hhas.
Qed.

End Upsert.

Lemma platform_parameter (platform : option value) :
  param (or_else platform (Some VNull)) =
  if truthy platform then platform else None.
Proof.
  unfold or_else.
  destruct platform as [[| [] | | | | |]|]; simpl; try reflexivity;
    destruct (negb _); reflexivity.
Qed.

Section RegisterToken.

Variables (now : time) (req_body : request_body) (w : world) (tok : string).

Hypothesis token_given : destructure req_body "token" = Some (VStr tok).
Hypothesis token_not_empty : tok <> "".
Hypothesis configured : store_configured w = true.
Hypothesis upsert_runs : no_fault_at 0 w.

(** The registration runs its upsert, with the platform bound when it is
    truthy and NULL otherwise; the count that follows passes or fails
    without touching the table. *)
Lemma register_token_world :
  snd (Full.post_register_token now req_body w) =
    with_db (upsert_token now tok
               (if truthy (destructure req_body "platform")
                then destructure req_body "platform" else None)
               (db w))
            (tl (tl (faults w))) w.
Proof.
  unfold Full.post_register_token.
  rewrite token_given, valid_token_guard, bind_configured by assumption.
  unfold try_catch. rewrite bind_pool_query by assumption.
  simpl execute. cbv beta iota. rewrite platform_parameter.
  unfold bind, pool_query. simpl faults.
  destruct (tl (faults w)) as [|[] fs]; reflexivity.
Qed.

End RegisterToken.

(** C1, amended. Two POST /register-token calls with the same token, at
    [t1] then [t2], on a configured store whose upserts run: after each
    call exactly one expo_tokens row carries the token; after the second
    its last_seen_at is [t2], and its platform is the second call's
    platform if that value is truthy (a non-empty string, but also a
    number other than 0, true, an array, an object), the platform the row
    had before otherwise; id and created_at stay. *)
Theorem register_token_twice (h : handler) (w : world) (t1 t2 : time)
    (tok : string) (body1 body2 : request_body) :
  on_postgres POST_register_token h ->
  store_configured w = true ->
  unique_tokens (db w) ->
  no_fault_at 0 w ->
  no_fault_at 2 w ->
  tok <> "" ->
  destructure body1 "token" = Some (VStr tok) ->
  destructure body2 "token" = Some (VStr tok) ->
  let w1 := snd (h t1 body1 w) in
  let w2 := snd (h t2 body2 w1) in
  exists r1 r2,
    filter (has_token tok) (expo_tokens (db w1)) = [r1]
    /\ filter (has_token tok) (expo_tokens (db w2)) = [r2]
    /\ ExpoTokens.last_seen_at r2 = t2
    /\ ExpoTokens.platform r2 =
         (if truthy (destructure body2 "platform")
          then destructure body2 "platform"
          else ExpoTokens.platform r1)
    /\ ExpoTokens.created_at r2 = ExpoTokens.created_at r1
    /\ ExpoTokens.id r2 = ExpoTokens.id r1.
Proof.
  intros Hroute. apply on_postgres_register_token in Hroute. subst h.
  intros Hconf Huniq Hf0 Hf2 Hne Htok1 Htok2 w1 w2.
  assert (Hw1 : w1 = _) by (apply (register_token_world t1 body1 w tok); assumption).
  assert (Hconf1 : store_configured w1 = true) by (now rewrite Hw1).
  assert (Hf1 : no_fault_at 0 w1).
  { rewrite Hw1. unfold no_fault_at in *. simpl.
    destruct (faults w) as [|f0 [|f1 fs]]; simpl in *; try reflexivity.
    exact Hf2. }
  assert (Hw2 : w2 = _) by (apply (register_token_world t2 body2 w1 tok); assumption).
  destruct (upsert_token_row t1 tok
              (if truthy (destructure body1 "platform")
               then destructure body1 "platform" else None)
              (db w) Huniq) as [r1 [Hr1 _]].
  assert (Hrow1 : filter (has_token tok) (expo_tokens (db w1)) = [r1])
    by (rewrite Hw1; exact Hr1).
  pose proof (upsert_token_again t2 tok
                (if truthy (destructure body2 "platform")
                 then destructure body2 "platform" else None)
                (db w1) r1 Hrow1) as Hrow2.
  eexists r1, _. split; [exact Hrow1|].
  split; [rewrite Hw2; exact Hrow2|].
  simpl. repeat split.
  destruct (truthy (destructure body2 "platform")) eqn:Ht; [|reflexivity].
  destruct (destructure body2 "platform"); [reflexivity|discriminate].
Qed.

Lemma no_fault_at_next (n : nat) (d : database) (w : world) :
  no_fault_at (S n) w -> no_fault_at n (with_db d (tl (faults w)) w).
Proof.
  unfold no_fault_at. simpl.
  destruct (faults w) as [|f fs]; simpl; [now destruct n|trivial].
Qed.

Lemma param_truthy (v : value) :
  truthy (Some v) = true -> param (Some v) = Some v.
Proof. destruct v; simpl; intros H; try reflexivity; discriminate H. Qed.

Section News.

Variables (now : time) (req_body : request_body) (w : world).

Hypothesis configured : store_configured w = true.
Hypothesis statement_runs : no_fault_at 0 w.

Lemma get_news_run :
  Full.get_news now req_body w =
    (Ok {| status := 200;
           json := Some (VArr (map news_row
                                 (order_by_created_at_desc (news_items (db w))))) |},
     with_db (db w) (tl (faults w)) w).
Proof.
  unfold Full.get_news. rewrite bind_configured by assumption.
  unfold try_catch. rewrite bind_pool_query by assumption.
  reflexivity.
Qed.

Lemma post_news_run (title message : value) :
  destructure req_body "title" = Some title ->
  destructure req_body "message" = Some message ->
  truthy (Some title) = true ->
  truthy (Some message) = true ->
  Full.post_news now req_body w =
    (Ok {| status := 201;
           json := Some (news_row (fst (insert_news now title message (db w)))) |},
     with_db (snd (insert_news now title message (db w))) (tl (faults w)) w).
Proof.
  intros Htitle Hmessage Ht Hm.
  unfold Full.post_news. rewrite bind_configured by assumption.
  rewrite Htitle, Hmessage.
  replace (negb (truthy (Some title)) || negb (truthy (Some message)))
    with false by (now rewrite Ht, Hm).
  unfold try_catch. rewrite bind_pool_query by assumption.
  rewrite !param_truthy by assumption.
  reflexivity.
Qed.

End News.

Lemma nonempty_truthy (s : string) : s <> "" -> truthy (Some (VStr s)) = true.
Proof.
  intros H. simpl. now destruct (String.eqb_spec s "").
Qed.

(** C8. On a configured store with an empty news_items table and four
    statements that run: POST /news with title [T1] and message [M1]
    (non-empty strings) at [t1] answers 201 with the new item, its id
    taken from the sequence and its createdAt [t1], and GET /news then
    returns exactly that item; after a second POST at [t3], GET /news
    returns the two items by createdAt descending, the second one first
    when [t1 < t3]. *)
Theorem news_round_trip (w : world) (t1 t2 t3 t4 : time)
    (T1 M1 T2 M2 : string) (body1 body2 nobody : request_body) :
  store_configured w = true ->
  news_items (db w) = [] ->
  (forall n, (n < 4)%nat -> no_fault_at n w) ->
  T1 <> "" -> M1 <> "" -> T2 <> "" -> M2 <> "" ->
  destructure body1 "title" = Some (VStr T1) ->
  destructure body1 "message" = Some (VStr M1) ->
  destructure body2 "title" = Some (VStr T2) ->
  destructure body2 "message" = Some (VStr M2) ->
  let r1 := {| NewsItems.id := news_items_id_seq (db w);
               NewsItems.title := VStr T1;
               NewsItems.message := VStr M1;
               NewsItems.created_at := t1 |} in
  let r2 := {| NewsItems.id := news_items_id_seq (db w) + 1;
               NewsItems.title := VStr T2;
               NewsItems.message := VStr M2;
               NewsItems.created_at := t3 |} in
  let post1 := Full.post_news t1 body1 w in
  let list1 := Full.get_news t2 nobody (snd post1) in
  let post2 := Full.post_news t3 body2 (snd list1) in
  let list2 := Full.get_news t4 nobody (snd post2) in
  fst post1 = Ok {| status := 201; json := Some (news_row r1) |}
  /\ fst list1 = Ok {| status := 200; json := Some (VArr [news_row r1]) |}
  /\ fst post2 = Ok {| status := 201; json := Some (news_row r2) |}
  /\ exists newest oldest,
       fst list2 =
         Ok {| status := 200;
               json := Some (VArr [news_row newest; news_row oldest]) |}
       /\ Permutation [newest; oldest] [r1; r2]
       /\ NewsItems.created_at oldest <= NewsItems.created_at newest
       /\ (t1 < t3 -> newest = r2 /\ oldest = r1).
Proof.
  intros Hconf Hempty Hfaults HT1 HM1 HT2 HM2 Ht1 Hm1 Ht2 Hm2
         r1 r2 post1 list1 post2 list2.
  pose proof (post_news_run t1 body1 w Hconf (Hfaults 0%nat ltac:(lia))
                (VStr T1) (VStr M1) Ht1 Hm1
                (nonempty_truthy _ HT1) (nonempty_truthy _ HM1)) as Hpost1.
  fold post1 in Hpost1. unfold insert_news in Hpost1.
  rewrite Hempty in Hpost1. simpl in Hpost1. fold r1 in Hpost1.
  pose proof (get_news_run t2 nobody (snd post1)) as Hlist1.
  fold list1 in Hlist1. rewrite Hpost1 in Hlist1.
  specialize (Hlist1 Hconf (no_fault_at_next 0 _ _ (Hfaults 1%nat ltac:(lia)))).
  simpl in Hlist1.
  pose proof (post_news_run t3 body2 (snd list1)) as Hpost2.
  fold post2 in Hpost2. rewrite Hlist1 in Hpost2.
  specialize (Hpost2 Hconf
    (no_fault_at_next 0 _ _ (no_fault_at_next 1 _ _ (Hfaults 2%nat ltac:(lia))))
    (VStr T2) (VStr M2) Ht2 Hm2
    (nonempty_truthy _ HT2) (nonempty_truthy _ HM2)).
  unfold insert_news in Hpost2. simpl in Hpost2. fold r1 r2 in Hpost2.
  pose proof (get_news_run t4 nobody (snd post2)) as Hlist2.
  fold list2 in Hlist2. rewrite Hpost2 in Hlist2.
  specialize (Hlist2 Hconf
    (no_fault_at_next 0 _ _ (no_fault_at_next 1 _ _
       (no_fault_at_next 2 _ _ (Hfaults 3%nat ltac:(lia)))))).
  simpl in Hlist2.
  rewrite Hpost1, Hlist1, Hpost2, Hlist2. simpl fst.
  split; [reflexivity|]. split; [reflexivity|]. split; [reflexivity|].
  destruct (t3 <=? t1) eqn:Hle.
  - exists r1, r2. apply Z.leb_le in Hle.
    split; [reflexivity|]. split; [apply Permutation_refl|].
    simpl. split; [exact Hle|lia].
  - exists r2, r1. apply Z.leb_gt in Hle.
    split; [reflexivity|]. split; [apply perm_swap|].
    simpl. split; [lia|auto].
Qed.

Section Forwarding.

Variables (now : time) (req_body : request_body) (w : world).

Lemma single_send_world :
  truthy (destructure req_body "to") = true ->
  truthy (destructure req_body "title") = true ->
  truthy (destructure req_body "body") = true ->
  snd (SingleSend.post_send_notification now req_body w) =
    with_call (one_message req_body) w.
Proof.
  intros Hto Htitle Hbody. unfold SingleSend.post_send_notification.
  rewrite send_notification_guard by assumption.
  fold (one_message req_body).
  unfold try_catch, bind, fetch_expo.
  destruct (upstream w) as [|[|[|data]] rest]; simpl; try reflexivity.
  destruct data; simpl; try reflexivity.
  unfold ret.
  destruct (assoc "data" fields) as [[| | | |items| |]|]; try reflexivity.
  destruct items as [|ticket more]; [reflexivity|].
  simpl. destruct ticket; simpl; try reflexivity.
  unfold ret.
  destruct (is_the_string (assoc "status" fields0) "ok"); reflexivity.
Qed.

Lemma send_notification_world (v : variant) (h : handler) :
  app v POST_send_notification = Some h ->
  truthy (destructure req_body "to") = true ->
  truthy (destructure req_body "title") = true ->
  truthy (destructure req_body "body") = true ->
  snd (h now req_body w) = with_call (one_message req_body) w.
Proof.
  intros Hroute Hto Htitle Hbody.
  destruct (send_notification_handlers _ _ Hroute) as [-> | ->].
  - unfold Full.post_send_notification.
    rewrite send_notification_guard by assumption.
    apply sendToExpo_world.
  - now apply single_send_world.
Qed.

Lemma broadcast_outbound (v : variant) (h : handler) :
  app v POST_broadcast = Some h ->
  truthy (destructure req_body "title") = true ->
  truthy (destructure req_body "body") = true ->
  store_answers v w ->
  recipients v w <> [] ->
  outbound (snd (h now req_body w)) = outbound w ++ [batch req_body (recipients v w)].
Proof.
  intros Hroute Htitle Hbody Hstore Hsome.
  assert (Hpg : store_configured w = true -> no_fault_at 0 w ->
                map ExpoTokens.token (expo_tokens (db w)) <> [] ->
                outbound (snd (Full.post_broadcast now req_body w)) =
                outbound w ++ [batch req_body (map ExpoTokens.token (expo_tokens (db w)))]).
  { intros Hconf Hfault Hrows. unfold Full.post_broadcast.
    rewrite broadcast_guard, bind_configured by assumption.
    unfold try_catch. rewrite bind_pool_query by assumption.
    simpl execute. cbv beta iota.
    rewrite length_map.
    replace (Z.of_nat (length (expo_tokens (db w))) =? 0) with false
      by (symmetry; apply Z.eqb_neq;
          destruct (expo_tokens (db w)); [now destruct Hrows|simpl length; lia]).
    match goal with
    | |- context [Full.sendToExpo ?m ?w'] =>
        replace m with (batch req_body (map ExpoTokens.token (expo_tokens (db w))))
          by (unfold batch; rewrite !map_map; reflexivity);
        pose proof (sendToExpo_world
                      (batch req_body (map ExpoTokens.token (expo_tokens (db w)))) w')
          as Hworld;
        destruct (Full.sendToExpo
                    (batch req_body (map ExpoTokens.token (expo_tokens (db w)))) w')
          as [[resp|e] w'']
    end; simpl in Hworld; subst; reflexivity. }
  destruct v; simpl in Hroute; inversion Hroute; subst h; clear Hroute;
    simpl in Hstore, Hsome |- *.
  - destruct Hstore. now apply Hpg.
  - unfold InMemory.post_broadcast.
    rewrite broadcast_guard by assumption.
    unfold bind at 1. unfold InMemory.tokens_size.
    destruct (tokens w) as [|t ts] eqn:Hts; [contradiction|].
    replace (Z.of_nat (length (t :: ts)) =? 0) with false
      by (symmetry; apply Z.eqb_neq; simpl length; lia).
    unfold bind, InMemory.Array_from_tokens. rewrite Hts.
    fold (batch req_body (t :: ts)).
    change InMemory.sendToExpo with Full.sendToExpo.
    now rewrite sendToExpo_world.
  - destruct Hstore. now apply Hpg.
Qed.

End Forwarding.

Section Truthiness.

Variables (now : time) (w : world) (x : value).

Hypothesis x_truthy : truthy (Some x) = true.
Hypothesis x_not_string : is_string (Some x) = false.
Hypothesis x_stable : json_stable x = true.


End Truthiness.

(** * The theorems at concrete inputs *)

(** A number as token in memory, the empty string on a configured store,
    no token at all without a store: 400 each time. *)
Lemma register_token_rejects_invalid_token_witness :
  InMemory.post_register_token 0 [("token", VNum 42)] offline =
    (Ok {| status := 400; json := Some (failure "Ongeldig token") |}, offline)
  /\ Full.post_register_token 0 [("token", VStr "")] online =
    (Ok {| status := 400; json := Some (failure "Ongeldig token") |}, online)
  /\ Persistent.post_register_token 0 [] offline =
    (Ok {| status := 400; json := Some (failure "Ongeldig token") |}, offline).
Proof.
  split; [|split].
  - apply (register_token_rejects_invalid_token 0 _ offline in_memory);
      [reflexivity | right; right; reflexivity].
  - apply (register_token_rejects_invalid_token 0 _ online full);
      [reflexivity | right; left; reflexivity].
  - apply (register_token_rejects_invalid_token 0 _ offline persistent);
      [reflexivity | left; reflexivity].
Defined.

(** A registration without DATABASE_URL. *)
Lemma register_token_degraded_mode_witness :
  Full.post_register_token 0 [("token", VStr a_token); ("platform", VStr "ios")]
    offline =
    (Ok {| status := 200;
           json := Some (VObj [("ok", VBool true);
                               ("warning",
                                VStr "Token niet persistent opgeslagen (geen DATABASE_URL).")]) |},
     offline).
Proof.
  apply (register_token_degraded_mode 0 _ offline _ a_token).
  - left; reflexivity.
  - reflexivity.
  - discriminate.
  - reflexivity.
Defined.

(** A notification without body, single-send variant. *)
Lemma send_notification_missing_field_no_call_witness :
  SingleSend.post_send_notification 0
    [("to", VStr a_token); ("title", VStr "Festibal")] offline =
    (Ok {| status := 400;
           json := Some (failure "to, title en body zijn verplicht") |}, offline)
  /\ outbound (snd (SingleSend.post_send_notification 0
       [("to", VStr a_token); ("title", VStr "Festibal")] offline)) = [].
Proof.
  apply (send_notification_missing_field_no_call 0 _ offline single_send);
    [reflexivity | right; right; reflexivity].
Defined.

(** A news item without message, on a configured store. *)
Lemma create_news_missing_field_witness :
  Full.post_news 0 [("title", VStr "Festibal")] online =
    (Ok {| status := 400;
           json := Some (failure "title en message zijn verplicht") |}, online).
Proof.
  apply (create_news_missing_field 0 [("title", VStr "Festibal")] online).
  right; reflexivity.
Defined.

(** C2 as stated fails: with no store configured, POST /news without
    title and message is answered 500, not 400. *)
Lemma create_news_unconfigured_answers_500 :
  destructure [] "title" = None
  /\ store_configured offline = false
  /\ Full.post_news 0 [] offline =
       (Ok {| status := 500;
              json := Some (failure "DATABASE_URL ontbreekt, nieuws kan niet opgeslagen worden.") |},
        offline).
Proof. repeat split. Qed.

(** C4 at the upstream reply null: data is no array there, yet the answer
    is the plain 500 "Push failed (server error)", with no expo property
    carrying the reply. *)
Theorem null_reply_answered_without_payload :
  let w := answering (Responds (Json VNull)) offline in
  Array_isArray (prop VNull "data") = false
  /\ fst (Full.sendToExpo (one_message a_notification) w) =
       Ok {| status := 500;
             json := Some (VObj [("ok", VBool false);
                                 ("error", VStr "Push failed (server error)")]) |}
  /\ prop (VObj [("ok", VBool false);
                 ("error", VStr "Push failed (server error)")]) "expo" = None.
Proof. repeat split. Qed.

(** DeviceNotRegistered, as the single-send variant reports it. *)
Lemma upstream_rejection_by_variant_witness :
  SingleSend.post_send_notification 0 a_notification
    (answering (Responds (Json device_not_registered)) offline) =
    (Ok {| status := 400;
           json := Some (VObj [("ok", VBool false);
                               ("error", VStr "DeviceNotRegistered");
                               ("details", VNull)]) |},
     with_call (one_message a_notification)
       (answering (Responds (Json device_not_registered)) offline)).
Proof.
  apply (upstream_rejection_by_variant 0 a_notification
           (answering (Responds (Json device_not_registered)) offline)
           device_not_registered
           (VObj [("status", VStr "error"); ("message", VStr "DeviceNotRegistered")])
           [] []);
    try reflexivity.
  discriminate.
Defined.

(** C5 as stated fails: in the full variant a rejected ticket comes back
    inside a 200 answer. *)
Lemma full_variant_forwards_rejected_ticket :
  fst (Full.post_send_notification 0 a_notification
         (answering (Responds (Json device_not_registered)) online)) =
    Ok {| status := 200;
          json := Some (VObj [("ok", VBool true);
                              ("tickets",
                               VArr [VObj [("status", VStr "error");
                                           ("message", VStr "DeviceNotRegistered")]])]) |}.
Proof. reflexivity. Qed.

(** A broadcast to nobody, on PostgreSQL and in memory. *)
Lemma broadcast_without_tokens_witness :
  fst (Full.post_broadcast 0 an_announcement online) =
    Ok {| status := 400;
          json := Some (failure "Geen geregistreerde tokens om naar te sturen") |}
  /\ fst (InMemory.post_broadcast 0 an_announcement offline) =
    Ok {| status := 400;
          json := Some (failure "Geen geregistreerde tokens om naar te sturen") |}.
Proof.
  split.
  - apply (broadcast_without_tokens 0 an_announcement online eq_refl eq_refl full);
      [reflexivity | split; reflexivity | reflexivity].
  - apply (broadcast_without_tokens 0 an_announcement offline eq_refl eq_refl
             in_memory);
      [reflexivity | exact I | reflexivity].
Defined.

(** The same token from ios, then from android. *)
Lemma register_token_twice_witness :
  let w1 := snd (Full.post_register_token 10
                   [("token", VStr a_token); ("platform", VStr "ios")] online) in
  let w2 := snd (Full.post_register_token 20
                   [("token", VStr a_token); ("platform", VStr "android")] w1) in
  exists r1 r2,
    filter (has_token a_token) (expo_tokens (db w1)) = [r1]
    /\ filter (has_token a_token) (expo_tokens (db w2)) = [r2]
    /\ ExpoTokens.last_seen_at r2 = 20
    /\ ExpoTokens.platform r2 = Some (VStr "android")
    /\ ExpoTokens.created_at r2 = ExpoTokens.created_at r1
    /\ ExpoTokens.id r2 = ExpoTokens.id r1.
Proof.
  apply (register_token_twice Full.post_register_token online 10 20 a_token
           [("token", VStr a_token); ("platform", VStr "ios")]
           [("token", VStr a_token); ("platform", VStr "android")]);
    try reflexivity.
  - left; reflexivity.
  - constructor.
  - discriminate.
Defined.

(** C1 as stated fails: a second registration whose platform is the
    number 42, not a string, overwrites the platform "ios" all the same. *)
Lemma register_token_number_platform_overwrites :
  let w1 := snd (Full.post_register_token 10
                   [("token", VStr a_token); ("platform", VStr "ios")] online) in
  let w2 := snd (Full.post_register_token 20
                   [("token", VStr a_token); ("platform", VNum 42)] w1) in
  is_string (Some (VNum 42)) = false
  /\ map ExpoTokens.platform
       (filter (has_token a_token) (expo_tokens (db w1))) = [Some (VStr "ios")]
  /\ map ExpoTokens.platform
       (filter (has_token a_token) (expo_tokens (db w2))) = [Some (VNum 42)]
  /\ Some (VNum 42) <> Some (VStr "ios").
Proof.
  repeat split. discriminate.
Qed.

(** Two items posted at 10 and 30, listed at 20 and 40. *)
Lemma news_round_trip_witness :
  let post1 := Full.post_news 10 [("title", VStr "T"); ("message", VStr "M")] online in
  let list1 := Full.get_news 20 [] (snd post1) in
  let post2 := Full.post_news 30 [("title", VStr "T2"); ("message", VStr "M2")]
                 (snd list1) in
  let list2 := Full.get_news 40 [] (snd post2) in
  fst list1 =
    Ok {| status := 200;
          json := Some (VArr [VObj [("id", number_of_Z 1); ("title", VStr "T");
                                    ("message", VStr "M"); ("createdAt", VDate 10)]]) |}
  /\ fst list2 =
    Ok {| status := 200;
          json := Some (VArr [VObj [("id", number_of_Z 2); ("title", VStr "T2");
                                    ("message", VStr "M2"); ("createdAt", VDate 30)];
                              VObj [("id", number_of_Z 1); ("title", VStr "T");
                                    ("message", VStr "M"); ("createdAt", VDate 10)]]) |}.
Proof.
  intros post1 list1 post2 list2.
  destruct (news_round_trip online 10 20 30 40 "T" "M" "T2" "M2"
              [("title", VStr "T"); ("message", VStr "M")]
              [("title", VStr "T2"); ("message", VStr "M2")] [])
    as (_ & Hlist1 & _ & newest & oldest & Hlist2 & _ & _ & Horder);
    try reflexivity; try discriminate.
  - intros n _. unfold no_fault_at. simpl. now destruct n.
  - destruct Horder as [-> ->]; [lia|].
    split; [exact Hlist1 | exact Hlist2].
Defined.


(** * Properties that hold of every handler *)

(** ** Rules for walking through a handler *)

Section Walk.

Context {A B : Type}.

Variable R : world -> world -> Prop.
Hypothesis R_refl : forall w, R w w.
Hypothesis R_trans : forall w1 w2 w3, R w1 w2 -> R w2 w3 -> R w1 w3.

Lemma preserves_ret (a : A) : preserves R (ret a).
Proof. intros w. apply R_refl. Qed.

Lemma preserves_throw (e : error) : preserves R (@throw A e).
Proof. intros w. apply R_refl. Qed.

Lemma preserves_bind (c : M A) (k : A -> M B) :
  preserves R c -> (forall a, preserves R (k a)) -> preserves R (bind c k).
Proof.
  intros Hc Hk w. unfold bind. specialize (Hc w).
  destruct (c w) as [[a|e] w1]; simpl in *; [|exact Hc].
  apply (R_trans _ w1); [exact Hc | apply Hk].
Qed.

Lemma preserves_try_catch (c : M A) (h : error -> M A) :
  preserves R c -> (forall e, preserves R (h e)) -> preserves R (try_catch c h).
Proof.
  intros Hc Hh w. unfold try_catch. specialize (Hc w).
  destruct (c w) as [[a|e] w1]; simpl in *; [exact Hc|].
  apply (R_trans _ w1); [exact Hc | apply Hh].
Qed.

End Walk.

Section WalkSteps.

Variable R : world -> world -> Prop.
Hypothesis R_refl : forall w, R w w.

Lemma preserves_res_status_json (s : Z) (b : value) :
  preserves R (res_status_json s b).
Proof. intros w. apply R_refl. Qed.

Lemma preserves_res_json (b : value) : preserves R (res_json b).
Proof. intros w. apply R_refl. Qed.

Lemma preserves_no_DATABASE_URL : preserves R no_DATABASE_URL.
Proof. intros w. apply R_refl. Qed.

Lemma preserves_get (v : option value) (k : string) : preserves R (get v k).
Proof. intros w. destruct v as [[]|]; apply R_refl. Qed.

Lemma preserves_response_json (r : http_response) :
  preserves R (response_json r).
Proof. intros w. destruct r; apply R_refl. Qed.

Lemma preserves_tokens_size : preserves R InMemory.tokens_size.
Proof. intros w. apply R_refl. Qed.

Lemma preserves_Array_from_tokens : preserves R InMemory.Array_from_tokens.
Proof. intros w. apply R_refl. Qed.

End WalkSteps.

(** Walks through a handler whose steps are binds, try/catch, tests and
    the primitives above; [leaf] closes the steps that touch the world. *)
Ltac walk R_refl R_trans leaf :=
  cbv zeta;
  repeat first
    [ apply (preserves_res_status_json _ R_refl)
    | apply (preserves_res_json _ R_refl)
    | apply (preserves_ret _ R_refl)
    | apply (preserves_no_DATABASE_URL _ R_refl)
    | apply (preserves_get _ R_refl)
    | apply (preserves_response_json _ R_refl)
    | apply (preserves_tokens_size _ R_refl)
    | apply (preserves_Array_from_tokens _ R_refl)
    | leaf
    | apply (preserves_bind _ R_trans); [|intros ?]
    | apply (preserves_try_catch _ R_trans); [|intros ?]
    | match goal with
      | |- preserves _ (if ?c then _ else _) => destruct c
      | |- preserves _ (match ?c with _ => _ end) => destruct c
      end ].

(** Each of the eleven handlers, by variant and route. *)
Lemma app_cases (P : handler -> Prop) :
  P get_root ->
  P Full.get_news -> P Full.post_news -> P Full.post_register_token ->
  P Full.post_broadcast -> P Full.post_send_notification ->
  P SingleSend.post_send_notification ->
  P InMemory.post_register_token -> P InMemory.post_broadcast ->
  forall v r h, app v r = Some h -> P h.
Proof.
  intros H1 H2 H3 H4 H5 H6 H7 H8 H9 v r h Happ.
  destruct v, r; simpl in Happ; inversion Happ; subst h; assumption.
Qed.

Section EveryHandler.

Variable R : world -> world -> Prop.
Hypothesis R_refl : forall w, R w w.
Hypothesis R_trans : forall w1 w2 w3, R w1 w2 -> R w2 w3 -> R w1 w3.
Hypothesis R_pool_query : forall now s, preserves R (pool_query now s).
Hypothesis R_fetch_expo : forall messages, preserves R (fetch_expo messages).
Hypothesis R_tokens_add : forall token, preserves R (InMemory.tokens_add token).

Lemma sendToExpo_preserves (messages : value) :
  preserves R (Full.sendToExpo messages).
Proof.
  unfold Full.sendToExpo.
  walk R_refl R_trans ltac:(first [apply R_fetch_expo]).
Qed.

(** A relation that is a preorder and holds across each primitive step
    holds across every handler of every variant. *)
Lemma every_handler_preserves (v : variant) (r : route) (h : handler)
    (now : time) (req_body : request_body) :
  app v r = Some h -> preserves R (h now req_body).
Proof.
  revert v r h. apply app_cases.
  - unfold get_root. walk R_refl R_trans fail.
  - unfold Full.get_news. walk R_refl R_trans ltac:(apply R_pool_query).
  - unfold Full.post_news. walk R_refl R_trans ltac:(apply R_pool_query).
  - unfold Full.post_register_token.
    walk R_refl R_trans ltac:(apply R_pool_query).
  - unfold Full.post_broadcast.
    walk R_refl R_trans
      ltac:(first [apply R_pool_query | apply sendToExpo_preserves]).
  - unfold Full.post_send_notification.
    walk R_refl R_trans ltac:(apply sendToExpo_preserves).
  - unfold SingleSend.post_send_notification.
    walk R_refl R_trans ltac:(apply R_fetch_expo).
  - unfold InMemory.post_register_token.
    walk R_refl R_trans ltac:(apply R_tokens_add).
  - unfold InMemory.post_broadcast.
    walk R_refl R_trans ltac:(apply sendToExpo_preserves).
Qed.

End EveryHandler.

(** ** Nothing stored is lost *)

Lemma grows_refl {A} (l : list A) : grows l l.
Proof. exists []. now rewrite app_nil_r. Qed.

Lemma grows_trans {A} (l1 l2 l3 : list A) :
  grows l1 l2 -> grows l2 l3 -> grows l1 l3.
Proof.
  intros [m1 ->] [m2 ->]. exists (m1 ++ m2). now rewrite app_assoc.
Qed.

Lemma grows_kept {A} (l1 l2 : list A) : grows l1 l2 -> kept l1 l2.
Proof. intros [more ->]. exists more. apply Permutation_refl. Qed.

Lemma kept_refl {A} (l : list A) : kept l l.
Proof. apply grows_kept, grows_refl. Qed.

Lemma kept_trans {A} (l1 l2 l3 : list A) :
  kept l1 l2 -> kept l2 l3 -> kept l1 l3.
Proof.
  intros [m1 H1] [m2 H2]. exists (m1 ++ m2).
  eapply perm_trans; [exact H2|].
  rewrite app_assoc. now apply Permutation_app_tail.
Qed.

Lemma keeps_rows_refl (w : world) : keeps_rows w w.
Proof. split; [apply kept_refl | split; [apply kept_refl | apply grows_refl]]. Qed.

Lemma keeps_rows_trans (w1 w2 w3 : world) :
  keeps_rows w1 w2 -> keeps_rows w2 w3 -> keeps_rows w1 w3.
Proof.
  intros (H1 & H2 & H3) (H1' & H2' & H3').
  split; [eapply kept_trans; eassumption|].
  split; [eapply kept_trans; eassumption | eapply grows_trans; eassumption].
Qed.

Lemma identity_do_update (now : time) (tok : string) (p2 : option value)
    (r : ExpoTokens.row) :
  identity (do_update now tok p2 r) = identity r.
Proof. unfold do_update. now destruct (has_token tok r). Qed.

Lemma upsert_token_identities (now : time) (tok : string) (p2 : option value)
    (d : database) :
  kept (map identity (expo_tokens d))
       (map identity (expo_tokens (upsert_token now tok p2 d))).
Proof.
  apply grows_kept. unfold upsert_token. simpl.
  destruct (existsb (has_token tok) (expo_tokens d)).
  - rewrite map_map. erewrite map_ext; [apply grows_refl|].
    intros r. symmetry. apply identity_do_update.
  - rewrite map_app. eexists. reflexivity.
Qed.

Lemma execute_keeps_rows (now : time) (s : statement) (d d' : database)
    (rows : list value) :
  execute now s d = Some (rows, d') ->
  kept (news_items d) (news_items d')
  /\ kept (map identity (expo_tokens d)) (map identity (expo_tokens d')).
Proof.
  destruct s as [p1 p2| | | |[title|] [message|]]; simpl; intros E;
    inversion E; subst; clear E; simpl;
    try (split; apply kept_refl).
  - split; [apply kept_refl | apply upsert_token_identities].
  - split; [apply grows_kept; eexists; reflexivity | apply kept_refl].
Qed.

Lemma pool_query_keeps_rows (now : time) (s : statement) :
  preserves keeps_rows (pool_query now s).
Proof.
  intros w. unfold pool_query.
  assert (Hrun : forall fs,
            keeps_rows w
              (snd (match execute now s (db w) with
                    | Some (rows, d') => (Ok rows, with_db d' fs w)
                    | None => (Throw DatabaseError, with_db (db w) fs w)
                    end))).
  { intros fs.
    destruct (execute now s (db w)) as [[rows d']|] eqn:E; simpl;
      [|exact (keeps_rows_refl w)].
    destruct (execute_keeps_rows _ _ _ _ _ E) as [Hn Ht].
    split; [exact Hn | split; [exact Ht | apply grows_refl]]. }
  destruct (faults w) as [|[] fs]; try apply Hrun.
  exact (keeps_rows_refl w).
Qed.

Lemma fetch_expo_keeps_rows (messages : value) :
  preserves keeps_rows (fetch_expo messages).
Proof.
  intros w. unfold fetch_expo.
  destruct (upstream w) as [|[|r] rest]; exact (keeps_rows_refl w).
Qed.

Lemma tokens_add_keeps_rows (token : string) :
  preserves keeps_rows (InMemory.tokens_add token).
Proof.
  intros w. unfold InMemory.tokens_add. simpl.
  destruct (existsb (String.eqb token) (tokens w)); simpl.
  - exact (keeps_rows_refl w).
  - split; [apply kept_refl | split; [apply kept_refl|]].
    eexists. reflexivity.
Qed.

(** X4. No handler of any variant removes or rewrites what is stored:
    every news row and the (id, token, created_at) of every token row
    that a request finds are still in their table after it, as often as
    before, wherever a scan now returns them; the in-memory token set is
    what it was, with possibly a token more at its end. *)
Theorem stored_rows_are_kept (v : variant) (r : route) (h : handler)
    (now : time) (req_body : request_body) (w : world) :
  app v r = Some h ->
  keeps_rows w (snd (h now req_body w)).
Proof.
  intros Happ.
  apply (every_handler_preserves keeps_rows keeps_rows_refl keeps_rows_trans
           pool_query_keeps_rows fetch_expo_keeps_rows tokens_add_keeps_rows
           v r h now req_body Happ).
Qed.

(** ** The schema's constraints hold at all times *)

Lemma fresh_id_not_in {A} (id : A -> Z) (rows : list A) (next : Z) :
  Forall (fun r => id r < next) rows -> ~ In next (map id rows).
Proof.
  intros Hbelow Hin. apply in_map_iff in Hin. destruct Hin as [r [E Hr]].
  rewrite Forall_forall in Hbelow. specialize (Hbelow r Hr). lia.
Qed.

Lemma NoDup_snoc {A} (l : list A) (x : A) :
  NoDup l -> ~ In x l -> NoDup (l ++ [x]).
Proof.
  intros Hl Hx. apply NoDup_app; [exact Hl | constructor; [tauto|constructor] |].
  intros y Hy [<-|[]]. contradiction.
Qed.

Lemma Forall_below_next {A} (id : A -> Z) (rows : list A) (next : Z) :
  Forall (fun r => id r < next) rows ->
  Forall (fun r => id r < next + 1) rows.
Proof. apply Forall_impl. intros r. lia. Qed.

Lemma id_do_update (now : time) (tok : string) (p2 : option value)
    (r : ExpoTokens.row) :
  ExpoTokens.id (do_update now tok p2 r) = ExpoTokens.id r.
Proof. unfold do_update. now destruct (has_token tok r). Qed.

Lemma upsert_token_consistent (now : time) (tok : string) (p2 : option value)
    (d : database) :
  consistent d -> consistent (upsert_token now tok p2 d).
Proof.
  intros (Htok & Hid & Hbelow & Hnews & Hnbelow).
  split; [apply upsert_token_unique; exact Htok|].
  unfold upsert_token; simpl.
  destruct (existsb (has_token tok) (expo_tokens d)).
  - split; [|split; [|split; assumption]].
    + rewrite map_map. erewrite map_ext; [exact Hid|].
      intros r. apply id_do_update.
    + apply Forall_map.
      apply (Forall_impl _ (P := fun r => ExpoTokens.id r < expo_tokens_id_seq d));
        [|exact Hbelow].
      intros r Hr. rewrite id_do_update. lia.
  - split; [|split; [|split; assumption]].
    + rewrite map_app. simpl.
      apply NoDup_snoc; [exact Hid | now apply fresh_id_not_in].
    + apply Forall_app. split; [now apply Forall_below_next|].
      constructor; [simpl; lia | constructor].
Qed.

Lemma insert_news_consistent (now : time) (title message : value)
    (d : database) :
  consistent d -> consistent (snd (insert_news now title message d)).
Proof.
  intros (Htok & Hid & Hbelow & Hnews & Hnbelow).
  unfold insert_news, consistent. simpl.
  split; [exact Htok|]. split; [exact Hid|]. split; [exact Hbelow|].
  split.
  - rewrite map_app. simpl.
    apply NoDup_snoc; [exact Hnews | now apply fresh_id_not_in].
  - apply Forall_app. split; [now apply Forall_below_next|].
    constructor; [simpl; lia | constructor].
Qed.

Lemma execute_consistent (now : time) (s : statement) (d d' : database)
    (rows : list value) :
  execute now s d = Some (rows, d') -> consistent d -> consistent d'.
Proof.
  destruct s as [p1 p2| | | |[title|] [message|]]; simpl; intros E;
    inversion E; subst; clear E; trivial.
  - apply upsert_token_consistent.
  - apply (insert_news_consistent now title message d).
Qed.

Lemma pool_query_keeps_constraints (now : time) (s : statement) :
  preserves keeps_constraints (pool_query now s).
Proof.
  intros w. unfold pool_query.
  assert (Hrun : forall fs,
            keeps_constraints w
              (snd (match execute now s (db w) with
                    | Some (rows, d') => (Ok rows, with_db d' fs w)
                    | None => (Throw DatabaseError, with_db (db w) fs w)
                    end))).
  { intros fs.
    destruct (execute now s (db w)) as [[rows d']|] eqn:E; simpl;
      intros [Hdb Hset]; simpl; split; trivial.
    eapply execute_consistent; eassumption. }
  destruct (faults w) as [|[] fs]; try apply Hrun.
  intros H. exact H.
Qed.

Lemma tokens_add_keeps_constraints (token : string) :
  preserves keeps_constraints (InMemory.tokens_add token).
Proof.
  intros w [Hdb Hset]. unfold InMemory.tokens_add. simpl.
  destruct (existsb (String.eqb token) (tokens w)) eqn:Hex; simpl;
    split; trivial.
  apply NoDup_snoc; [exact Hset|].
  intros Hin.
  assert (existsb (String.eqb token) (tokens w) = true)
    by (apply existsb_exists; exists token; split;
        [exact Hin | apply String.eqb_refl]).
  congruence.
Qed.

(** X5. Every handler of every variant keeps the schema's constraints
    (token UNIQUE, ids distinct and behind their sequence) and keeps the
    in-memory tokens a set, whatever the request and whether or not
    statements fail. *)
Theorem constraints_are_kept (v : variant) (r : route) (h : handler)
    (now : time) (req_body : request_body) (w : world) :
  app v r = Some h ->
  consistent (db w) ->
  NoDup (tokens w) ->
  consistent (db (snd (h now req_body w)))
  /\ NoDup (tokens (snd (h now req_body w))).
Proof.
  intros Happ Hdb Hset.
  apply (every_handler_preserves keeps_constraints) with (v := v) (r := r);
    try exact Happ; try (split; assumption).
  - intros w0 H. exact H.
  - intros w1 w2 w3 H12 H23 H. apply H23, H12, H.
  - apply pool_query_keeps_constraints.
  - intros messages w0 H. unfold fetch_expo.
    destruct (upstream w0) as [|[|resp] rest]; exact H.
  - apply tokens_add_keeps_constraints.
Qed.

(** ** Which requests write, which requests call out *)

Lemma same_stores_refl (w : world) : same_stores w w.
Proof. repeat split. Qed.

Lemma same_stores_trans (w1 w2 w3 : world) :
  same_stores w1 w2 -> same_stores w2 w3 -> same_stores w1 w3.
Proof.
  intros (H1 & H2 & H3) (H1' & H2' & H3').
  repeat split; congruence.
Qed.

Lemma pool_query_reads (now : time) (s : statement) :
  s = SelectTokens \/ s = SelectNews \/ s = CountTokens ->
  preserves same_stores (pool_query now s).
Proof.
  intros Hs w. unfold pool_query.
  destruct (faults w) as [|[] fs];
    destruct Hs as [->|[->| ->]]; repeat split.
Qed.

Lemma fetch_expo_same_stores (messages : value) :
  preserves same_stores (fetch_expo messages).
Proof.
  intros w. unfold fetch_expo.
  destruct (upstream w) as [|[|r] rest]; repeat split.
Qed.

Lemma sendToExpo_same_stores (messages : value) :
  preserves same_stores (Full.sendToExpo messages).
Proof.
  unfold Full.sendToExpo.
  walk same_stores_refl same_stores_trans ltac:(apply fetch_expo_same_stores).
Qed.

(** X3. Only POST /register-token and POST /news write: every other
    handler, in every variant, leaves the tables, the sequences, the
    in-memory set and the environment exactly as they were, whatever it
    answers. *)
Theorem other_routes_do_not_write (v : variant) (r : route) (h : handler)
    (now : time) (req_body : request_body) (w : world) :
  app v r = Some h ->
  r <> POST_register_token ->
  r <> POST_news ->
  same_stores w (snd (h now req_body w)).
Proof.
  intros Happ Hreg Hnews. revert w.
  change (preserves same_stores (h now req_body)).
  destruct v, r; simpl in Happ; inversion Happ; subst h; clear Happ;
    try contradiction;
    match goal with
    | |- preserves _ (?handler _ _) => unfold handler
    end;
    walk same_stores_refl same_stores_trans
      ltac:(first [ apply pool_query_reads; tauto
                  | apply sendToExpo_same_stores
                  | apply fetch_expo_same_stores ]).
Qed.

Lemma no_call_refl (w : world) : no_call w w.
Proof. reflexivity. Qed.

Lemma no_call_trans (w1 w2 w3 : world) :
  no_call w1 w2 -> no_call w2 w3 -> no_call w1 w3.
Proof. unfold no_call. congruence. Qed.

Lemma pool_query_no_call (now : time) (s : statement) :
  preserves no_call (pool_query now s).
Proof.
  intros w. unfold pool_query.
  destruct (faults w) as [|[] fs];
    try destruct (execute now s (db w)) as [[rows d']|]; reflexivity.
Qed.

Lemma tokens_add_no_call (token : string) :
  preserves no_call (InMemory.tokens_add token).
Proof.
  intros w. unfold InMemory.tokens_add. simpl.
  now destruct (existsb (String.eqb token) (tokens w)).
Qed.

Section Calls.

Context {A B : Type}.

Lemma no_call_at_most_one (c : M A) :
  preserves no_call c -> preserves at_most_one_call c.
Proof. intros H w. left. apply H. Qed.

Lemma call_after_no_call (c : M A) (k : A -> M B) :
  preserves no_call c ->
  (forall a, preserves at_most_one_call (k a)) ->
  preserves at_most_one_call (bind c k).
Proof.
  intros Hc Hk w. unfold bind. specialize (Hc w).
  destruct (c w) as [[a|e] w1]; simpl in *; [|now left].
  unfold no_call in Hc. unfold at_most_one_call. rewrite <- Hc. apply Hk.
Qed.

Lemma no_call_after_call (c : M A) (k : A -> M B) :
  preserves at_most_one_call c ->
  (forall a, preserves no_call (k a)) ->
  preserves at_most_one_call (bind c k).
Proof.
  intros Hc Hk w. unfold bind. specialize (Hc w).
  destruct (c w) as [[a|e] w1]; simpl in *; [|exact Hc].
  specialize (Hk a w1). unfold no_call in Hk.
  unfold at_most_one_call. rewrite Hk. exact Hc.
Qed.

Lemma catch_after_call (c : M A) (h : error -> M A) :
  preserves at_most_one_call c ->
  (forall e, preserves no_call (h e)) ->
  preserves at_most_one_call (try_catch c h).
Proof.
  intros Hc Hh w. unfold try_catch. specialize (Hc w).
  destruct (c w) as [[a|e] w1]; simpl in *; [exact Hc|].
  specialize (Hh e w1). unfold no_call in Hh.
  unfold at_most_one_call. rewrite Hh. exact Hc.
Qed.

End Calls.

Lemma fetch_expo_one_call (messages : value) :
  preserves at_most_one_call (fetch_expo messages).
Proof.
  intros w. right. exists messages. unfold fetch_expo.
  destruct (upstream w) as [|[|r] rest]; reflexivity.
Qed.

Lemma sendToExpo_one_call (messages : value) :
  preserves at_most_one_call (Full.sendToExpo messages).
Proof.
  intros w. right. exists messages. now rewrite sendToExpo_world.
Qed.

(** X2. A request makes at most one call to the push-delivery API, in
    every variant; a request to a route other than /broadcast and
    /send-notification makes none. *)
Theorem at_most_one_call_per_request (v : variant) (r : route) (h : handler)
    (now : time) (req_body : request_body) (w : world) :
  app v r = Some h ->
  at_most_one_call w (snd (h now req_body w))
  /\ (r <> POST_broadcast -> r <> POST_send_notification ->
      no_call w (snd (h now req_body w))).
Proof.
  intros Happ.
  assert (Hquiet : r <> POST_broadcast -> r <> POST_send_notification ->
                   preserves no_call (h now req_body)).
  { intros Hb Hs.
    destruct v, r; simpl in Happ; inversion Happ; subst h; clear Happ;
      try contradiction;
      match goal with
      | |- preserves _ (?handler _ _) => unfold handler
      end;
      walk no_call_refl no_call_trans
        ltac:(first [apply pool_query_no_call | apply tokens_add_no_call]). }
  split; [|intros Hb Hs; now apply Hquiet].
  revert w. change (preserves at_most_one_call (h now req_body)).
  assert (Hquiet400 : forall s b,
            preserves at_most_one_call (res_status_json s b))
    by (intros s b w; now left).
  assert (Hfull_send : preserves at_most_one_call
                         (Full.post_send_notification now req_body)).
  { unfold Full.post_send_notification. cbv zeta.
    destruct (_ || _); [apply Hquiet400 | apply sendToExpo_one_call]. }
  assert (Hfull_broadcast : preserves at_most_one_call
                              (Full.post_broadcast now req_body)).
  { unfold Full.post_broadcast. cbv zeta.
    destruct (_ || _); [apply Hquiet400|].
    apply call_after_no_call; [intros w; reflexivity|]. intros unset.
    destruct unset; [apply Hquiet400|].
    apply catch_after_call; [|intros e w; reflexivity].
    apply call_after_no_call; [apply pool_query_no_call|]. intros rows.
    destruct (_ =? 0); [apply Hquiet400 | apply sendToExpo_one_call]. }
  destruct v, r; simpl in Happ; inversion Happ; subst h; clear Happ;
    try assumption;
    try (apply no_call_at_most_one, Hquiet; discriminate).
  - unfold SingleSend.post_send_notification. cbv zeta.
    destruct (_ || _); [apply Hquiet400|].
    apply catch_after_call; [|intros e w; reflexivity].
    apply no_call_after_call; [apply fetch_expo_one_call|]. intros response.
    walk no_call_refl no_call_trans fail.
  - unfold InMemory.post_broadcast. cbv zeta.
    destruct (_ || _); [apply Hquiet400|].
    apply call_after_no_call; [intros w; reflexivity|]. intros size.
    destruct (_ =? 0); [apply Hquiet400|].
    apply call_after_no_call; [intros w; reflexivity|]. intros all.
    apply sendToExpo_one_call.
Qed.

(** ** Every request is answered *)

Section Answers.

Context {A B : Type}.

Lemma answers_ret (P : A -> Prop) (a : A) : P a -> answers P (ret a).
Proof. intros H w. exists a. now split. Qed.

Lemma answers_bind (Q : A -> Prop) (P : B -> Prop) (c : M A) (k : A -> M B) :
  answers Q c -> (forall a, Q a -> answers P (k a)) -> answers P (bind c k).
Proof.
  intros Hc Hk w. unfold bind. destruct (Hc w) as [a [E Ha]].
  destruct (c w) as [[a'|e] w1]; simpl in E; inversion E; subst.
  apply (Hk a Ha).
Qed.

Lemma yields_ret (P : A -> Prop) (a : A) : P a -> yields P (ret a).
Proof. intros H w. exact H. Qed.

Lemma yields_bind (Q : A -> Prop) (P : B -> Prop) (c : M A) (k : A -> M B) :
  yields Q c -> (forall a, Q a -> yields P (k a)) -> yields P (bind c k).
Proof.
  intros Hc Hk w. unfold bind. specialize (Hc w).
  destruct (c w) as [[a|e] w1]; simpl in *; [|exact I].
  apply (Hk a Hc).
Qed.

Lemma yields_anything (c : M A) : yields (fun _ => True) c.
Proof. intros w. now destruct (fst (c w)). Qed.

Lemma answers_yields (P : A -> Prop) (c : M A) : answers P c -> yields P c.
Proof. intros H w. destruct (H w) as [a [-> Ha]]. exact Ha. Qed.

Lemma answers_try_catch (P : A -> Prop) (c : M A) (h : error -> M A) :
  yields P c -> (forall e, answers P (h e)) -> answers P (try_catch c h).
Proof.
  intros Hc Hh w. unfold try_catch. specialize (Hc w).
  destruct (c w) as [[a|e] w1]; simpl in *; [|apply Hh].
  exists a. now split.
Qed.

End Answers.

Lemma or_else_defined (a : option value) (b : value) :
  exists x, or_else a (Some b) = Some x.
Proof.
  unfold or_else. destruct (truthy a) eqn:E; [|now exists b].
  destruct a as [x|]; [now exists x | discriminate].
Qed.

Lemma insert_returns_one_row (now : time) (p1 p2 : option value) :
  yields (fun rows => exists r, rows = [r]) (pool_query now (InsertNews p1 p2)).
Proof.
  intros w. unfold pool_query.
  destruct (faults w) as [|[] fs]; simpl; trivial;
    destruct p1, p2; simpl; trivial; eexists; reflexivity.
Qed.

(** Closes [well_formed] of a response written out in the handler. *)
Ltac shaped :=
  split;
  [ simpl; tauto
  | eexists; split;
    [ reflexivity
    | first [ intros [E|E]; discriminate E
            | intros _; split; [reflexivity | discriminate] ] ] ].

Lemma failure_answers (s : Z) (msg : string) :
  s = 400 \/ s = 500 -> answers well_formed (res_status_json s (failure msg)).
Proof. intros [-> | ->]; apply answers_ret; shaped. Qed.

Lemma sendToExpo_answers (messages : value) :
  answers well_formed (Full.sendToExpo messages).
Proof.
  unfold Full.sendToExpo.
  apply answers_try_catch; [|intros e; apply failure_answers; tauto].
  apply (yields_bind (fun _ => True)); [apply yields_anything|]. intros response _.
  apply (yields_bind (fun _ => True)); [apply yields_anything|]. intros data _.
  apply (yields_bind (fun _ => True)); [apply yields_anything|]. intros data_data _.
  destruct (_ || _); apply yields_ret; [shaped|].
  destruct data_data as [tickets|]; shaped.
Qed.

(** X1. No failure escapes a handler. The request body being a parsed
    JSON object and every statement and outbound call settling (returning
    or failing: the world has no statement or call that hangs), each
    handler of each variant sends a response, whether statements fail,
    the push-delivery API is unreachable, answers something that is not
    JSON, or answers JSON on which reading data or the first ticket
    throws. The status is 200, 201, 400 or 500, the body is JSON, and
    the body of a 400 or 500 is an object with ok: false and an error. *)
Theorem no_failure_escapes_a_handler (v : variant) (r : route) (h : handler)
    (now : time) (req_body : request_body) (w : world) :
  app v r = Some h ->
  exists resp, fst (h now req_body w) = Ok resp /\ well_formed resp.
Proof.
  intros Happ. revert w. change (answers well_formed (h now req_body)).
  revert v r h Happ. apply app_cases.
  - apply answers_ret. shaped.
  - unfold Full.get_news.
    apply (answers_bind (fun _ => True)); [intros w; now eexists|].
    intros [] _; [apply failure_answers; tauto|].
    apply answers_try_catch; [|intros e; apply failure_answers; tauto].
    apply (yields_bind (fun _ => True)); [apply yields_anything|]. intros rows _.
    apply yields_ret. shaped.
  - unfold Full.post_news.
    apply (answers_bind (fun _ => True)); [intros w; now eexists|].
    intros [] _; [apply failure_answers; tauto|]. cbv zeta.
    destruct (_ || _); [apply failure_answers; tauto|].
    apply answers_try_catch; [|intros e; apply failure_answers; tauto].
    eapply yields_bind; [apply insert_returns_one_row|].
    intros rows [row ->]. apply yields_ret. shaped.
  - unfold Full.post_register_token. cbv zeta.
    destruct (_ || _); [apply failure_answers; tauto|].
    apply (answers_bind (fun _ => True)); [intros w; now eexists|].
    intros [] _; [apply answers_ret; shaped|].
    apply answers_try_catch; [|intros e; apply failure_answers; tauto].
    apply (yields_bind (fun _ => True)); [apply yields_anything|]. intros _ _.
    apply (yields_bind (fun _ => True)); [apply yields_anything|]. intros rows _.
    apply yields_ret. shaped.
  - unfold Full.post_broadcast. cbv zeta.
    destruct (_ || _); [apply failure_answers; tauto|].
    apply (answers_bind (fun _ => True)); [intros w; now eexists|].
    intros [] _; [apply failure_answers; tauto|].
    apply answers_try_catch; [|intros e; apply failure_answers; tauto].
    apply (yields_bind (fun _ => True)); [apply yields_anything|]. intros rows _.
    destruct (_ =? 0);
      [apply answers_yields, failure_answers; tauto
      | apply answers_yields, sendToExpo_answers].
  - unfold Full.post_send_notification. cbv zeta.
    destruct (_ || _); [apply failure_answers; tauto | apply sendToExpo_answers].
  - unfold SingleSend.post_send_notification. cbv zeta.
    destruct (_ || _); [apply failure_answers; tauto|].
    apply answers_try_catch; [|intros e; apply failure_answers; tauto].
    apply (yields_bind (fun _ => True)); [apply yields_anything|]. intros response _.
    apply (yields_bind (fun _ => True)); [apply yields_anything|]. intros data _.
    apply (yields_bind (fun _ => True)); [apply yields_anything|]. intros data_data _.
    destruct (_ || _) eqn:Hinvalid; [apply yields_ret; shaped|].
    apply (yields_bind (fun _ => True)); [apply yields_anything|].
    intros ticket_status _.
    destruct (is_the_string ticket_status "ok").
    + apply yields_ret.
      destruct data_data as [[| | | |[|ticket more]| |]|]; try discriminate Hinvalid.
      shaped.
    + apply (yields_bind (fun _ => True)); [apply yields_anything|].
      intros ticket_message _.
      apply (yields_bind (fun _ => True)); [apply yields_anything|].
      intros ticket_details _.
      apply yields_ret.
      destruct (or_else_defined ticket_message (VStr "Expo push error")) as [m Hm].
      destruct (or_else_defined ticket_details VNull) as [d Hd].
      unfold str. rewrite Hm, Hd. shaped.
  - unfold InMemory.post_register_token. cbv zeta.
    destruct (_ || _); [apply failure_answers; tauto|].
    apply (answers_bind (fun _ => True)); [intros w; now eexists|].
    intros _ _. apply answers_ret. shaped.
  - unfold InMemory.post_broadcast. cbv zeta.
    destruct (_ || _); [apply failure_answers; tauto|].
    apply (answers_bind (fun _ => True)); [intros w; now eexists|].
    intros size _.
    destruct (_ =? 0); [apply failure_answers; tauto|].
    apply (answers_bind (fun _ => True)); [intros w; now eexists|].
    intros all _. apply sendToExpo_answers.
Qed.

(** ** News *)

Lemma insert_desc_permutation (r : NewsItems.row) (sorted : list NewsItems.row) :
  Permutation (r :: sorted) (insert_desc r sorted).
Proof.
  induction sorted as [|x rest IH]; simpl; [apply Permutation_refl|].
  destruct (NewsItems.created_at x <=? NewsItems.created_at r).
  - apply Permutation_refl.
  - eapply perm_trans; [apply perm_swap|]. now apply perm_skip.
Qed.

Lemma order_by_permutation (rows : list NewsItems.row) :
  Permutation rows (order_by_created_at_desc rows).
Proof.
  induction rows as [|r rows IH]; simpl; [constructor|].
  eapply perm_trans; [apply perm_skip, IH | apply insert_desc_permutation].
Qed.

Lemma insert_desc_newest_first (r : NewsItems.row) (sorted : list NewsItems.row) :
  newest_first sorted -> newest_first (insert_desc r sorted).
Proof.
  induction sorted as [|x rest IH]; simpl; [intros _; split; constructor|].
  intros [Hx Hrest].
  destruct (NewsItems.created_at x <=? NewsItems.created_at r) eqn:Hle.
  - apply Z.leb_le in Hle. simpl. split; [|split; assumption].
    constructor; [exact Hle|].
    eapply Forall_impl; [|exact Hx]. simpl. intros r' Hr'. lia.
  - apply Z.leb_gt in Hle. simpl. split; [|now apply IH].
    eapply Permutation_Forall; [apply insert_desc_permutation|].
    constructor; [lia | exact Hx].
Qed.

Lemma order_by_newest_first (rows : list NewsItems.row) :
  newest_first (order_by_created_at_desc rows).
Proof.
  induction rows as [|r rows IH]; simpl; [exact I|].
  now apply insert_desc_newest_first.
Qed.

Lemma bind_pool_query_fails {A} (now : time) (s : statement)
    (k : list value -> M A) (w : world) :
  nth 0 (faults w) false = true ->
  bind (pool_query now s) k w =
    (Throw DatabaseError, with_db (db w) (tl (faults w)) w).
Proof.
  intros H. unfold bind, pool_query.
  destruct (faults w) as [|[] fs]; simpl in H; try discriminate H.
  reflexivity.
Qed.

Section ListNews.

Variables (now : time) (req_body : request_body) (w : world).

(** X6. GET /news on a configured store whose SELECT runs answers 200 with
    every row of news_items, each once, by createdAt descending, whatever
    the table holds; the table is not touched. *)
Theorem list_news_newest_first :
  store_configured w = true ->
  no_fault_at 0 w ->
  exists rows,
    fst (Full.get_news now req_body w) =
      Ok {| status := 200; json := Some (VArr (map news_row rows)) |}
    /\ Permutation (news_items (db w)) rows
    /\ newest_first rows
    /\ db (snd (Full.get_news now req_body w)) = db w.
Proof.
  intros Hconf Hfault.
  exists (order_by_created_at_desc (news_items (db w))).
  rewrite get_news_run by assumption. simpl.
  split; [reflexivity|]. split; [apply order_by_permutation|].
  split; [apply order_by_newest_first | reflexivity].
Qed.

(** X7. GET /news without a configured store answers 500 "DATABASE_URL
    ontbreekt, ..." without sending a statement; with a configured store
    whose SELECT fails it answers 500 "DB error bij ophalen nieuws". The
    tables stay as they were. *)
Theorem list_news_failures :
  (store_configured w = false ->
   Full.get_news now req_body w =
     (Ok {| status := 500;
            json := Some (failure "DATABASE_URL ontbreekt, geen databaseverbinding voor nieuws.") |},
      w))
  /\ (store_configured w = true ->
      nth 0 (faults w) false = true ->
      Full.get_news now req_body w =
        (Ok {| status := 500;
               json := Some (failure "DB error bij ophalen nieuws") |},
         with_db (db w) (tl (faults w)) w)).
Proof.
  split.
  - intros Hunset. unfold Full.get_news.
    now rewrite bind_no_DATABASE_URL, Hunset.
  - intros Hconf Hfault. unfold Full.get_news.
    rewrite bind_configured by assumption.
    unfold try_catch. now rewrite bind_pool_query_fails by assumption.
Qed.

(** X8. POST /news with title and message on a configured store whose
    INSERT fails answers 500 "DB error bij opslaan nieuws" and inserts
    nothing: the rows of both tables are as before. *)
Theorem create_news_insert_fails :
  store_configured w = true ->
  truthy (destructure req_body "title") = true ->
  truthy (destructure req_body "message") = true ->
  nth 0 (faults w) false = true ->
  fst (Full.post_news now req_body w) =
    Ok {| status := 500; json := Some (failure "DB error bij opslaan nieuws") |}
  /\ news_items (db (snd (Full.post_news now req_body w))) = news_items (db w)
  /\ expo_tokens (db (snd (Full.post_news now req_body w))) = expo_tokens (db w).
Proof.
  intros Hconf Htitle Hmessage Hfault. unfold Full.post_news.
  rewrite bind_configured by assumption.
  rewrite Htitle, Hmessage. change (negb true || negb true) with false.
  cbv iota.
  unfold try_catch. rewrite bind_pool_query_fails by assumption.
  repeat split.
Qed.

End ListNews.

(** ** Registration on PostgreSQL *)

Lemma upsert_token_member (now : time) (tok : string) (p2 : option value)
    (d : database) :
  In tok (map ExpoTokens.token (expo_tokens (upsert_token now tok p2 d))).
Proof.
  unfold upsert_token. simpl.
  destruct (existsb (has_token tok) (expo_tokens d)) eqn:Hex.
  - apply existsb_exists in Hex. destruct Hex as [r [Hin Hr]].
    apply String.eqb_eq in Hr. rewrite <- Hr.
    rewrite map_map. apply in_map_iff. exists r. split; [|exact Hin].
    apply token_do_update.
  - rewrite map_app. apply in_or_app. right. now left.
Qed.

Lemma not_in_absent (tok : string) (rows : list ExpoTokens.row) :
  ~ In tok (map ExpoTokens.token rows) ->
  existsb (has_token tok) rows = false.
Proof.
  intros Hnotin. destruct (existsb (has_token tok) rows) eqn:Hex; [|reflexivity].
  exfalso. apply Hnotin. apply existsb_exists in Hex.
  destruct Hex as [r [Hin Hr]]. apply String.eqb_eq in Hr. rewrite <- Hr.
  now apply in_map.
Qed.

Lemma upsert_token_others (now : time) (tok other : string)
    (p2 : option value) (d : database) :
  other <> tok ->
  filter (has_token other) (expo_tokens (upsert_token now tok p2 d)) =
  filter (has_token other) (expo_tokens d).
Proof.
  intros Hother. unfold upsert_token. simpl.
  destruct (existsb (has_token tok) (expo_tokens d)).
  - induction (expo_tokens d) as [|r rows IH]; [reflexivity|].
    simpl.
    assert (Hsame : has_token other (do_update now tok p2 r) = has_token other r)
      by (unfold has_token; now rewrite token_do_update).
    rewrite Hsame.
    destruct (has_token other r) eqn:Ho; [|exact IH].
    f_equal; [|exact IH].
    unfold do_update.
    assert (has_token tok r = false) as ->; [|reflexivity].
    unfold has_token in *. apply String.eqb_eq in Ho.
    apply String.eqb_neq. congruence.
  - rewrite filter_app. simpl. unfold has_token at 2. simpl.
    assert (String.eqb tok other = false) as ->
      by (apply String.eqb_neq; congruence).
    apply app_nil_r.
Qed.

Lemma register_token_db (now : time) (req_body : request_body) (w : world) :
  db (snd (Full.post_register_token now req_body w)) = db w
  \/ exists tok p2,
       destructure req_body "token" = Some (VStr tok)
       /\ db (snd (Full.post_register_token now req_body w)) =
          upsert_token now tok p2 (db w).
Proof.
  remember (snd (Full.post_register_token now req_body w)) as w1 eqn:E.
  revert E. unfold Full.post_register_token.
  destruct (destructure req_body "token") as [[| | |tok| | |]|] eqn:Htoken;
    try (intros ->; left; simpl; rewrite ?orb_true_r; reflexivity).
  destruct (negb (truthy (Some (VStr tok))) || negb (is_string (Some (VStr tok))));
    [now intros ->; left|].
  rewrite bind_no_DATABASE_URL.
  destruct (store_configured w); cbn [negb]; cbv iota; [|now intros ->; left].
  unfold try_catch, bind, pool_query. cbv beta.
  destruct (faults w) as [|[] [|[] fs]]; simpl; intros ->; simpl;
    try (now left); right; exists tok; eexists; split; reflexivity.
Qed.

Section RegisterOnPostgres.

Variables (h : handler) (now : time) (req_body : request_body) (w : world).
Variable tok : string.

Hypothesis route : on_postgres POST_register_token h.
Hypothesis token_given : destructure req_body "token" = Some (VStr tok).
Hypothesis token_not_empty : tok <> "".
Hypothesis configured : store_configured w = true.

(** X9. A registration whose upsert fails is answered 500 "DB error bij
    opslaan token", and the rows of both tables are as before: the token
    is not added, and a row it already had is not touched. *)
Theorem register_token_upsert_fails :
  nth 0 (faults w) false = true ->
  fst (h now req_body w) =
    Ok {| status := 500; json := Some (failure "DB error bij opslaan token") |}
  /\ expo_tokens (db (snd (h now req_body w))) = expo_tokens (db w)
  /\ news_items (db (snd (h now req_body w))) = news_items (db w).
Proof.
  intros Hfault. rewrite (on_postgres_register_token _ route).
  unfold Full.post_register_token.
  rewrite token_given, valid_token_guard, bind_configured by assumption.
  unfold try_catch. rewrite bind_pool_query_fails by assumption.
  repeat split.
Qed.

(** X10. A registration whose upsert runs but whose count fails is answered
    500 "DB error bij opslaan token" although the token is in the table
    by then. *)
Theorem register_token_count_fails :
  no_fault_at 0 w ->
  nth 1 (faults w) false = true ->
  fst (h now req_body w) =
    Ok {| status := 500; json := Some (failure "DB error bij opslaan token") |}
  /\ In tok (map ExpoTokens.token (expo_tokens (db (snd (h now req_body w))))).
Proof.
  intros Hupsert Hcount. rewrite (on_postgres_register_token _ route).
  split.
  - unfold Full.post_register_token.
    rewrite token_given, valid_token_guard, bind_configured by assumption.
    unfold try_catch. rewrite bind_pool_query by assumption.
    simpl execute. cbv beta iota.
    rewrite bind_pool_query_fails; [reflexivity|].
    simpl. destruct (faults w) as [|f0 fs]; [discriminate Hcount|exact Hcount].
  - rewrite (register_token_world now req_body w tok) by assumption.
    apply upsert_token_member.
Qed.

(** X11. A registration whose two statements run is answered 200 with
    ok: true, and the token is in the table. *)
Theorem register_token_succeeds :
  no_fault_at 0 w ->
  no_fault_at 1 w ->
  fst (h now req_body w) =
    Ok {| status := 200; json := Some (VObj [("ok", VBool true)]) |}
  /\ In tok (map ExpoTokens.token (expo_tokens (db (snd (h now req_body w))))).
Proof.
  intros Hupsert Hcount. rewrite (on_postgres_register_token _ route).
  split.
  - unfold Full.post_register_token.
    rewrite token_given, valid_token_guard, bind_configured by assumption.
    unfold try_catch. rewrite bind_pool_query by assumption.
    simpl execute. cbv beta iota.
    rewrite bind_pool_query; [reflexivity|].
    now apply no_fault_at_next.
  - rewrite (register_token_world now req_body w tok) by assumption.
    apply upsert_token_member.
Qed.


End RegisterOnPostgres.

(** X13. A registration, whatever its outcome, leaves the rows of every
    other token and the news as they were. *)
Theorem register_token_leaves_others (h : handler) (now : time)
    (req_body : request_body) (w : world) (other : string) :
  on_postgres POST_register_token h ->
  destructure req_body "token" <> Some (VStr other) ->
  filter (has_token other) (expo_tokens (db (snd (h now req_body w)))) =
    filter (has_token other) (expo_tokens (db w))
  /\ news_items (db (snd (h now req_body w))) = news_items (db w).
Proof.
  intros Hroute Hother. rewrite (on_postgres_register_token _ Hroute).
  destruct (register_token_db now req_body w) as [-> | (tok & p2 & Htok & ->)];
    [now split|].
  split; [|reflexivity].
  apply upsert_token_others. congruence.
Qed.

(** ** Registration in memory *)

Lemma tokens_add_present (tok : string) (w : world) :
  In tok (tokens w) -> snd (InMemory.tokens_add tok w) = w.
Proof.
  intros Hin. unfold InMemory.tokens_add. simpl.
  assert (existsb (String.eqb tok) (tokens w) = true) as ->; [|reflexivity].
  apply existsb_exists. exists tok. split; [exact Hin | apply String.eqb_refl].
Qed.

Lemma tokens_add_absent (tok : string) (w : world) :
  ~ In tok (tokens w) ->
  snd (InMemory.tokens_add tok w) = with_tokens (tokens w ++ [tok]) w.
Proof.
  intros Hnotin. unfold InMemory.tokens_add. simpl.
  destruct (existsb (String.eqb tok) (tokens w)) eqn:Hex; [|reflexivity].
  exfalso. apply Hnotin. apply existsb_exists in Hex.
  destruct Hex as [t [Hin Ht]]. apply String.eqb_eq in Ht. now subst t.
Qed.

Lemma in_memory_register_run (now : time) (req_body : request_body)
    (w : world) (tok : string) :
  destructure req_body "token" = Some (VStr tok) ->
  tok <> "" ->
  InMemory.post_register_token now req_body w =
    (Ok {| status := 200; json := Some (VObj [("ok", VBool true)]) |},
     snd (InMemory.tokens_add tok w)).
Proof.
  intros Htok Hne. unfold InMemory.post_register_token.
  rewrite Htok, valid_token_guard by assumption.
  reflexivity.
Qed.

(** X14. In the in-memory variant a registration with a non-empty string
    token is answered 200 with ok: true; the token is in the set
    afterwards, at its end if it is new, and registering a token that is
    already there changes nothing. *)
Theorem in_memory_registration (now : time) (req_body : request_body)
    (w : world) (tok : string) :
  destructure req_body "token" = Some (VStr tok) ->
  tok <> "" ->
  let w1 := snd (InMemory.post_register_token now req_body w) in
  fst (InMemory.post_register_token now req_body w) =
    Ok {| status := 200; json := Some (VObj [("ok", VBool true)]) |}
  /\ In tok (tokens w1)
  /\ (In tok (tokens w) -> w1 = w)
  /\ (~ In tok (tokens w) -> tokens w1 = tokens w ++ [tok]).
Proof.
  intros Htok Hne w1. unfold w1.
  rewrite (in_memory_register_run now req_body w tok Htok Hne).
  cbn [fst snd]. split; [reflexivity|].
  split; [|split].
  - destruct (in_dec string_dec tok (tokens w)) as [Hin|Hnotin].
    + now rewrite tokens_add_present.
    + rewrite tokens_add_absent by assumption. simpl.
      apply in_or_app. right. now left.
  - apply tokens_add_present.
  - intros Hnotin. now rewrite tokens_add_absent.
Qed.

(** ** Broadcast *)

Lemma sendToExpo_reads_upstream (messages : value) (w1 w2 : world) :
  upstream w1 = upstream w2 ->
  fst (Full.sendToExpo messages w1) = fst (Full.sendToExpo messages w2).
Proof.
  intros Hup. unfold Full.sendToExpo, try_catch, bind, fetch_expo.
  rewrite Hup.
  destruct (upstream w2) as [|[|[|data]] rest]; simpl; try reflexivity.
  destruct data; simpl; try reflexivity.
  unfold ret.
  destruct (assoc "data" fields) as [[| | | |items| |]|]; try reflexivity.
  destruct items; reflexivity.
Qed.

Lemma try_catch_sendToExpo (messages : value) (h : error -> M response)
    (w : world) :
  try_catch (Full.sendToExpo messages) h w = Full.sendToExpo messages w.
Proof.
  unfold try_catch.
  destruct (sendToExpo_answers messages w) as [resp [E _]].
  destruct (Full.sendToExpo messages w) as [[a|e] w']; simpl in E;
    [reflexivity | discriminate E].
Qed.

Section BroadcastRuns.

Variables (now : time) (req_body : request_body) (w : world).

Hypothesis title_given : truthy (destructure req_body "title") = true.
Hypothesis body_given : truthy (destructure req_body "body") = true.

Lemma postgres_broadcast_run :
  store_configured w = true ->
  no_fault_at 0 w ->
  expo_tokens (db w) <> [] ->
  Full.post_broadcast now req_body w =
    Full.sendToExpo
      (batch req_body (map ExpoTokens.token (expo_tokens (db w))))
      (with_db (db w) (tl (faults w)) w).
Proof.
  intros Hconf Hfault Hrows. unfold Full.post_broadcast.
  rewrite broadcast_guard, bind_configured by assumption.
  unfold try_catch. rewrite bind_pool_query by assumption.
  simpl execute. cbv beta iota. rewrite length_map.
  replace (Z.of_nat (length (expo_tokens (db w))) =? 0) with false
    by (symmetry; apply Z.eqb_neq;
        destruct (expo_tokens (db w)); [contradiction|simpl length; lia]).
  match goal with
  | |- context [Full.sendToExpo ?m ?w'] =>
      replace m with (batch req_body (map ExpoTokens.token (expo_tokens (db w))))
        by (unfold batch; rewrite !map_map; reflexivity)
  end.
  destruct (sendToExpo_answers
              (batch req_body (map ExpoTokens.token (expo_tokens (db w))))
              (with_db (db w) (tl (faults w)) w)) as [resp [E _]].
  destruct (Full.sendToExpo _ _) as [[a|e] w']; simpl in E;
    [reflexivity | discriminate E].
Qed.

Lemma in_memory_broadcast_run :
  tokens w <> [] ->
  InMemory.post_broadcast now req_body w =
    Full.sendToExpo (batch req_body (tokens w)) w.
Proof.
  intros Hsome. unfold InMemory.post_broadcast.
  rewrite broadcast_guard by assumption.
  unfold bind at 1. unfold InMemory.tokens_size.
  replace (Z.of_nat (length (tokens w)) =? 0) with false
    by (symmetry; apply Z.eqb_neq;
        destruct (tokens w); [contradiction|simpl length; lia]).
  reflexivity.
Qed.

(** X15. A broadcast with title and body to a store that answers and holds
    tokens posts one batch, a message per registered token in the order of
    the store, each with the request's title and body, and answers
    exactly what push forwarding answers for that batch. *)
Theorem broadcast_relays_push_forwarding (v : variant) (h : handler) :
  app v POST_broadcast = Some h ->
  store_answers v w ->
  recipients v w <> [] ->
  fst (h now req_body w) =
    fst (Full.sendToExpo (batch req_body (recipients v w)) w)
  /\ outbound (snd (h now req_body w)) =
       outbound w ++ [batch req_body (recipients v w)].
Proof.
  intros Hroute Hstore Hsome.
  assert (Hpg : store_configured w = true /\ no_fault_at 0 w ->
                map ExpoTokens.token (expo_tokens (db w)) <> [] ->
                fst (Full.post_broadcast now req_body w) =
                  fst (Full.sendToExpo
                         (batch req_body (map ExpoTokens.token (expo_tokens (db w)))) w)
                /\ outbound (snd (Full.post_broadcast now req_body w)) =
                   outbound w ++
                   [batch req_body (map ExpoTokens.token (expo_tokens (db w)))]).
  { intros [Hconf Hfault] Hrows.
    rewrite postgres_broadcast_run; try assumption.
    - split; [now apply sendToExpo_reads_upstream|].
      now rewrite sendToExpo_world.
    - intros Hnil. apply Hrows. now rewrite Hnil. }
  destruct v; simpl in Hroute; inversion Hroute; subst h; clear Hroute;
    simpl in Hstore, Hsome |- *.
  - now apply Hpg.
  - rewrite in_memory_broadcast_run by assumption.
    split; [reflexivity | now rewrite sendToExpo_world].
  - now apply Hpg.
Qed.

(** X16. A broadcast with title and body on PostgreSQL answers 500
    "DATABASE_URL ontbreekt, geen tokens beschikbaar." when no store is
    configured, and 500 "DB error bij ophalen tokens" when the SELECT
    fails; in neither case does a call go out or a table change. *)
Theorem broadcast_store_failures (h : handler) :
  on_postgres POST_broadcast h ->
  (store_configured w = false ->
   h now req_body w =
     (Ok {| status := 500;
            json := Some (failure "DATABASE_URL ontbreekt, geen tokens beschikbaar.") |},
      w))
  /\ (store_configured w = true ->
      nth 0 (faults w) false = true ->
      h now req_body w =
        (Ok {| status := 500;
               json := Some (failure "DB error bij ophalen tokens") |},
         with_db (db w) (tl (faults w)) w)).
Proof.
  intros Hroute.
  assert (h = Full.post_broadcast) as ->
    by (destruct Hroute as [E|E]; simpl in E; now inversion E).
  split.
  - intros Hunset. unfold Full.post_broadcast.
    now rewrite broadcast_guard, bind_no_DATABASE_URL, Hunset by assumption.
  - intros Hconf Hfault. unfold Full.post_broadcast.
    rewrite broadcast_guard, bind_configured by assumption.
    unfold try_catch. now rewrite bind_pool_query_fails by assumption.
Qed.

End BroadcastRuns.

(** X17. A broadcast without title or without body (or with a falsy one) is
    answered 400 "title en body zijn verplicht" in every variant, before
    the store is looked at: nothing is read, sent or changed, also with
    no store configured. *)
Theorem broadcast_missing_field (v : variant) (h : handler) (now : time)
    (req_body : request_body) (w : world) :
  app v POST_broadcast = Some h ->
  truthy (destructure req_body "title") = false \/
  truthy (destructure req_body "body") = false ->
  h now req_body w =
    (Ok {| status := 400; json := Some (failure "title en body zijn verplicht") |},
     w).
Proof.
  intros Hroute Hmissing.
  assert (Hguard : negb (truthy (destructure req_body "title"))
                   || negb (truthy (destructure req_body "body")) = true)
    by (destruct Hmissing as [E|E]; rewrite E; simpl;
        rewrite ?orb_true_r; reflexivity).
  destruct v; simpl in Hroute; inversion Hroute; subst h.
  - unfold Full.post_broadcast. now rewrite Hguard.
  - unfold InMemory.post_broadcast. now rewrite Hguard.
  - unfold Persistent.post_broadcast. now rewrite Hguard.
Qed.

(** ** The single-send variant and the tickets *)

Section SingleSendReplies.

Variables (now : time) (req_body : request_body) (w : world).

Hypothesis to_given : truthy (destructure req_body "to") = true.
Hypothesis title_given : truthy (destructure req_body "title") = true.
Hypothesis body_given : truthy (destructure req_body "body") = true.

Ltac send_and_meet H :=
  unfold SingleSend.post_send_notification;
  rewrite send_notification_guard by assumption;
  fold (one_message req_body);
  unfold try_catch, bind, fetch_expo; rewrite H; cbv beta iota;
  unfold response_json, ret; cbv beta iota.

(** X18. In the single-send variant, when the first ticket of the reply has
    status "ok" the answer is 200 with ok: true and that ticket alone,
    whatever follows it in the reply. *)
Theorem single_send_accepted (data ticket : value) (more : list value)
    (rest : list exchange) :
  upstream w = Responds (Json data) :: rest ->
  prop data "data" = Some (VArr (ticket :: more)) ->
  prop ticket "status" = Some (VStr "ok") ->
  SingleSend.post_send_notification now req_body w =
    (Ok {| status := 200;
           json := Some (VObj [("ok", VBool true); ("ticket", ticket)]) |},
     with_call (one_message req_body) w).
Proof.
  intros Hup Hdata Hstatus. send_and_meet Hup.
  destruct data; try discriminate Hdata. simpl in Hdata.
  simpl get. unfold ret. rewrite Hdata.
  destruct ticket; try discriminate Hstatus. simpl in Hstatus.
  simpl. unfold ret. rewrite Hstatus. reflexivity.
Qed.

(** X19. In the single-send variant a reply that cannot be read is answered
    with the plain 500 "Push failed (server error)": no response, a body
    that is not JSON, the reply null, or a ticket array whose first
    ticket is null. The call has been made. *)
Theorem single_send_unreadable_reply :
  upstream w = []
  \/ (exists rest, upstream w = NetworkError :: rest)
  \/ (exists rest, upstream w = Responds NotJson :: rest)
  \/ (exists rest, upstream w = Responds (Json VNull) :: rest)
  \/ (exists data more rest,
        upstream w = Responds (Json data) :: rest
        /\ prop data "data" = Some (VArr (VNull :: more))) ->
  SingleSend.post_send_notification now req_body w =
    (Ok {| status := 500; json := Some (failure "Push failed (server error)") |},
     with_call (one_message req_body) w).
Proof.
  intros [Hup|[[rest Hup]|[[rest Hup]|[[rest Hup]|(data & more & rest & Hup & Hdata)]]]];
    send_and_meet Hup; try reflexivity.
  destruct data; try discriminate Hdata. simpl in Hdata.
  simpl get. unfold ret. rewrite Hdata. reflexivity.
Qed.

(** X20. In the single-send variant a reply other than null whose data is
    not an array, or is an empty one, is answered 500 "Ongeldige Expo push
    response" with the reply under expo. *)
Theorem single_send_invalid_reply (data : value) (rest : list exchange) :
  upstream w = Responds (Json data) :: rest ->
  data <> VNull ->
  (forall items, prop data "data" = Some (VArr items) -> items = []) ->
  SingleSend.post_send_notification now req_body w =
    (Ok {| status := 500;
           json := Some (VObj [("ok", VBool false);
                               ("error", VStr "Ongeldige Expo push response");
                               ("expo", data)]) |},
     with_call (one_message req_body) w).
Proof.
  intros Hup Hnull Hempty. send_and_meet Hup.
  assert (Hget : get (Some data) "data" = ret (prop data "data"))
    by (destruct data; try reflexivity; contradiction).
  rewrite Hget. unfold ret.
  destruct (prop data "data") as [[| | | |items| |]|] eqn:Hdata; try reflexivity.
  rewrite (Hempty items eq_refl). reflexivity.
Qed.

End SingleSendReplies.

(** ** Registration, then broadcast *)

Lemma upsert_token_tokens (now : time) (tok : string) (p2 : option value)
    (d : database) :
  (In tok (map ExpoTokens.token (expo_tokens d)) ->
   map ExpoTokens.token (expo_tokens (upsert_token now tok p2 d)) =
   map ExpoTokens.token (expo_tokens d))
  /\ (~ In tok (map ExpoTokens.token (expo_tokens d)) ->
      map ExpoTokens.token (expo_tokens (upsert_token now tok p2 d)) =
      map ExpoTokens.token (expo_tokens d) ++ [tok]).
Proof.
  unfold upsert_token. simpl.
  destruct (existsb (has_token tok) (expo_tokens d)) eqn:Hex; split; intros Hin.
  - rewrite map_map. apply map_ext. intros r. apply token_do_update.
  - now rewrite (not_in_absent _ _ Hin) in Hex.
  - exfalso. now apply (absent_not_in _ _ Hex).
  - now rewrite map_app.
Qed.

(** X21. After a registration that reaches the store, the next broadcast
    posts one batch, addressed to the token just registered and to the
    tokens that were registered before, and to no other; each of them
    once, if each was there once. (In which order, the theorem leaves
    open: the order of the SELECT after an upsert is PostgreSQL's.) *)
Theorem registered_token_is_broadcast_to (v : variant) (reg bc : handler)
    (t1 t2 : time) (body1 body2 : request_body) (w : world) (tok : string) :
  app v POST_register_token = Some reg ->
  app v POST_broadcast = Some bc ->
  destructure body1 "token" = Some (VStr tok) ->
  tok <> "" ->
  truthy (destructure body2 "title") = true ->
  truthy (destructure body2 "body") = true ->
  (v <> in_memory ->
   store_configured w = true /\ no_fault_at 0 w /\ no_fault_at 2 w) ->
  let w1 := snd (reg t1 body1 w) in
  let w2 := snd (bc t2 body2 w1) in
  exists tos,
    outbound w2 = outbound w ++ [batch body2 tos]
    /\ (forall t, In t tos <-> t = tok \/ In t (recipients v w))
    /\ (NoDup (recipients v w) -> NoDup tos).
Proof.
  intros Hreg Hbc Htok Hne Htitle Hbody Hstore w1 w2.
  assert (Hafter : In tok (recipients v w1)
                   /\ (In tok (recipients v w) -> recipients v w1 = recipients v w)
                   /\ (~ In tok (recipients v w) ->
                       recipients v w1 = recipients v w ++ [tok])
                   /\ outbound w1 = outbound w
                   /\ store_answers v w1).
  { unfold w1. clear w1 w2 Hbc.
    assert (Hpg : v <> in_memory -> reg = Full.post_register_token ->
              recipients v w = map ExpoTokens.token (expo_tokens (db w)) ->
              (forall w', recipients v w' =
                          map ExpoTokens.token (expo_tokens (db w'))) ->
              (forall w', store_answers v w' =
                          (store_configured w' = true /\ no_fault_at 0 w')) ->
              In tok (recipients v (snd (reg t1 body1 w)))
              /\ (In tok (recipients v w) ->
                  recipients v (snd (reg t1 body1 w)) = recipients v w)
              /\ (~ In tok (recipients v w) ->
                  recipients v (snd (reg t1 body1 w)) = recipients v w ++ [tok])
              /\ outbound (snd (reg t1 body1 w)) = outbound w
              /\ store_answers v (snd (reg t1 body1 w))).
    { intros Hv -> Hrec Hrecs Hans.
      destruct (Hstore Hv) as (Hconf & Hf0 & Hf2).
      rewrite (register_token_world t1 body1 w tok) by assumption.
      rewrite Hrecs, Hrec, Hans. simpl.
      destruct (upsert_token_tokens t1 tok
                  (if truthy (destructure body1 "platform")
                   then destructure body1 "platform" else None) (db w))
        as [Hold Hnew].
      split; [apply upsert_token_member|].
      split; [exact Hold|]. split; [exact Hnew|].
      split; [reflexivity|]. split; [exact Hconf|].
      unfold no_fault_at in *. simpl.
      destruct (faults w) as [|f0 [|f1 fs]]; try reflexivity. exact Hf2. }
    destruct v; simpl in Hreg; inversion Hreg; subst reg.
    - apply Hpg; try reflexivity; try discriminate.
    - replace (snd (InMemory.post_register_token t1 body1 w))
        with (snd (InMemory.tokens_add tok w))
        by (now rewrite (in_memory_register_run t1 body1 w tok Htok Hne)).
      unfold recipients, store_answers.
      destruct (in_dec string_dec tok (tokens w)) as [Hin|Hnotin].
      + rewrite tokens_add_present by assumption.
        split; [exact Hin|]. split; [reflexivity|].
        split; [intros Hnotin; contradiction|]. split; [reflexivity | exact I].
      + rewrite tokens_add_absent by assumption. simpl.
        split; [apply in_or_app; right; now left|].
        split; [intros Hin; contradiction|].
        split; [reflexivity|]. split; [reflexivity | exact I].
    - apply Hpg; try reflexivity; try discriminate. }
  destruct Hafter as (Hin & Hold & Hnew & Hout & Hanswers).
  exists (recipients v w1). split; [|split].
  - unfold w2.
    rewrite (broadcast_outbound t2 body2 w1 v bc Hbc Htitle Hbody Hanswers).
    + now rewrite Hout.
    + intros Hnil. rewrite Hnil in Hin. contradiction.
  - intros t.
    destruct (in_dec string_dec tok (recipients v w)) as [Hthere|Hnotthere].
    + rewrite (Hold Hthere). split; [now right|].
      intros [-> | Ht]; assumption.
    + rewrite (Hnew Hnotthere), in_app_iff. simpl. split.
      * intros [Ht|[<-|[]]]; [now right | now left].
      * intros [-> | Ht]; [right; now left | now left].
  - intros Hnodup.
    destruct (in_dec string_dec tok (recipients v w)) as [Hthere|Hnotthere].
    + now rewrite (Hold Hthere).
    + rewrite (Hnew Hnotthere). now apply NoDup_snoc.
Qed.

(** * The further properties at concrete inputs *)

(** A second device registers: the row of the first stays. *)
Lemma stored_rows_are_kept_witness :
  keeps_rows one_device
    (snd (Persistent.post_register_token 5
            [("token", VStr "ExponentPushToken[tent]")] one_device)).
Proof.
  apply (stored_rows_are_kept persistent POST_register_token). reflexivity.
Defined.

(** The same device registers again, in the table that holds it. *)
Lemma constraints_are_kept_witness :
  consistent (db (snd (Full.post_register_token 5 a_registration one_device)))
  /\ NoDup (tokens (snd (Full.post_register_token 5 a_registration one_device))).
Proof.
  apply (constraints_are_kept full POST_register_token); [reflexivity| |].
  - unfold consistent. simpl.
    repeat split; repeat constructor; simpl; try tauto; lia.
  - simpl. repeat constructor. simpl. tauto.
Defined.

(** A broadcast to one device leaves table and set alone. *)
Lemma other_routes_do_not_write_witness :
  same_stores one_device (snd (InMemory.post_broadcast 5 an_announcement one_device)).
Proof.
  apply (other_routes_do_not_write in_memory POST_broadcast);
    [reflexivity | discriminate | discriminate].
Defined.

(** A broadcast makes its one call; a registration makes none. *)
Lemma at_most_one_call_per_request_witness :
  at_most_one_call one_device
    (snd (Full.post_broadcast 5 an_announcement one_device))
  /\ no_call one_device
       (snd (Full.post_register_token 5 a_registration one_device)).
Proof.
  split.
  - apply (at_most_one_call_per_request full POST_broadcast). reflexivity.
  - apply (at_most_one_call_per_request full POST_register_token);
      [reflexivity | discriminate | discriminate].
Defined.

(** A notification while the push-delivery API is unreachable. *)
Lemma no_failure_escapes_a_handler_witness :
  exists resp,
    fst (SingleSend.post_send_notification 5 a_notification offline) = Ok resp
    /\ well_formed resp.
Proof.
  apply (no_failure_escapes_a_handler single_send POST_send_notification).
  reflexivity.
Defined.

(** The three items come back as 30, 20, 10. *)
Lemma list_news_newest_first_witness :
  exists rows,
    fst (Full.get_news 40 [] some_news) =
      Ok {| status := 200; json := Some (VArr (map news_row rows)) |}
    /\ Permutation (news_items (db some_news)) rows
    /\ newest_first rows
    /\ db (snd (Full.get_news 40 [] some_news)) = db some_news.
Proof.
  apply (list_news_newest_first 40 [] some_news); reflexivity.
Defined.

(** GET /news without a store, and with a store that fails. *)
Lemma list_news_failures_witness :
  fst (Full.get_news 40 [] offline) =
    Ok {| status := 500;
          json := Some (failure "DATABASE_URL ontbreekt, geen databaseverbinding voor nieuws.") |}
  /\ fst (Full.get_news 40 [] (failing [true] some_news)) =
    Ok {| status := 500; json := Some (failure "DB error bij ophalen nieuws") |}.
Proof.
  split.
  - rewrite (proj1 (list_news_failures 40 [] offline) eq_refl). reflexivity.
  - rewrite (proj2 (list_news_failures 40 [] (failing [true] some_news))
               eq_refl eq_refl).
    reflexivity.
Defined.

(** An item posted while the INSERT fails. *)
Lemma create_news_insert_fails_witness :
  fst (Full.post_news 40 [("title", VStr "Regen"); ("message", VStr "voorbij")]
         (failing [true] some_news)) =
    Ok {| status := 500; json := Some (failure "DB error bij opslaan nieuws") |}
  /\ news_items
       (db (snd (Full.post_news 40
                   [("title", VStr "Regen"); ("message", VStr "voorbij")]
                   (failing [true] some_news)))) =
     news_items (db (failing [true] some_news))
  /\ expo_tokens
       (db (snd (Full.post_news 40
                   [("title", VStr "Regen"); ("message", VStr "voorbij")]
                   (failing [true] some_news)))) =
     expo_tokens (db (failing [true] some_news)).
Proof.
  apply (create_news_insert_fails 40
           [("title", VStr "Regen"); ("message", VStr "voorbij")]
           (failing [true] some_news)); reflexivity.
Defined.

(** A registration while the upsert fails. *)
Lemma register_token_upsert_fails_witness :
  fst (Full.post_register_token 5 a_registration (failing [true] one_device)) =
    Ok {| status := 500; json := Some (failure "DB error bij opslaan token") |}
  /\ expo_tokens
       (db (snd (Full.post_register_token 5 a_registration
                   (failing [true] one_device)))) =
     expo_tokens (db (failing [true] one_device))
  /\ news_items
       (db (snd (Full.post_register_token 5 a_registration
                   (failing [true] one_device)))) =
     news_items (db (failing [true] one_device)).
Proof.
  apply (register_token_upsert_fails Full.post_register_token 5 a_registration
           (failing [true] one_device) a_token);
    try reflexivity; [left; reflexivity | discriminate].
Defined.

(** A registration while only the count fails: 500, and the row is there. *)
Lemma register_token_count_fails_witness :
  fst (Full.post_register_token 5 a_registration (failing [false; true] online)) =
    Ok {| status := 500; json := Some (failure "DB error bij opslaan token") |}
  /\ In a_token
       (map ExpoTokens.token
          (expo_tokens
             (db (snd (Full.post_register_token 5 a_registration
                         (failing [false; true] online)))))).
Proof.
  apply (register_token_count_fails Full.post_register_token 5 a_registration
           (failing [false; true] online) a_token);
    try reflexivity; [left; reflexivity | discriminate].
Defined.

(** A registration on a store that works. *)
Lemma register_token_succeeds_witness :
  fst (Persistent.post_register_token 5 a_registration online) =
    Ok {| status := 200; json := Some (VObj [("ok", VBool true)]) |}
  /\ In a_token
       (map ExpoTokens.token
          (expo_tokens (db (snd (Persistent.post_register_token 5 a_registration
                                   online))))).
Proof.
  apply (register_token_succeeds Persistent.post_register_token 5 a_registration
           online a_token);
    try reflexivity; [right; reflexivity | discriminate].
Defined.


(** Another device registers: the row of the first is untouched. *)
Lemma register_token_leaves_others_witness :
  filter (has_token a_token)
    (expo_tokens (db (snd (Full.post_register_token 5
                             [("token", VStr "ExponentPushToken[tent]")]
                             one_device)))) =
    filter (has_token a_token) (expo_tokens (db one_device))
  /\ news_items (db (snd (Full.post_register_token 5
                            [("token", VStr "ExponentPushToken[tent]")]
                            one_device))) =
     news_items (db one_device).
Proof.
  apply (register_token_leaves_others Full.post_register_token 5
           [("token", VStr "ExponentPushToken[tent]")] one_device a_token);
    [left; reflexivity | discriminate].
Defined.

(** A device registers in memory, where it already is. *)
Lemma in_memory_registration_witness :
  let w1 := snd (InMemory.post_register_token 5 a_registration one_device) in
  fst (InMemory.post_register_token 5 a_registration one_device) =
    Ok {| status := 200; json := Some (VObj [("ok", VBool true)]) |}
  /\ In a_token (tokens w1)
  /\ (In a_token (tokens one_device) -> w1 = one_device)
  /\ (~ In a_token (tokens one_device) -> tokens w1 = tokens one_device ++ [a_token]).
Proof.
  apply (in_memory_registration 5 a_registration one_device a_token);
    [reflexivity | discriminate].
Defined.

(** A broadcast to the one device, the push-delivery API accepting. *)
Lemma broadcast_relays_push_forwarding_witness :
  fst (Full.post_broadcast 5 an_announcement
         (answering (Responds (Json accepted)) one_device)) =
    fst (Full.sendToExpo (batch an_announcement [a_token])
           (answering (Responds (Json accepted)) one_device))
  /\ outbound (snd (Full.post_broadcast 5 an_announcement
                      (answering (Responds (Json accepted)) one_device))) =
       [VArr [VObj [("to", VStr a_token); ("title", VStr "Festibal");
                    ("body", VStr "De poort is open")]]].
Proof.
  apply (broadcast_relays_push_forwarding 5 an_announcement
           (answering (Responds (Json accepted)) one_device) eq_refl eq_refl full);
    [reflexivity | split; reflexivity | discriminate].
Defined.

(** A broadcast without a store, and with a store that fails. *)
Lemma broadcast_store_failures_witness :
  Full.post_broadcast 5 an_announcement offline =
    (Ok {| status := 500;
           json := Some (failure "DATABASE_URL ontbreekt, geen tokens beschikbaar.") |},
     offline)
  /\ Full.post_broadcast 5 an_announcement (failing [true] one_device) =
    (Ok {| status := 500; json := Some (failure "DB error bij ophalen tokens") |},
     one_device).
Proof.
  split.
  - apply (broadcast_store_failures 5 an_announcement offline eq_refl eq_refl
             Full.post_broadcast (or_introl eq_refl)).
    reflexivity.
  - apply (broadcast_store_failures 5 an_announcement (failing [true] one_device)
             eq_refl eq_refl Full.post_broadcast (or_introl eq_refl));
      reflexivity.
Defined.

(** A broadcast without body, no store configured. *)
Lemma broadcast_missing_field_witness :
  Persistent.post_broadcast 5 [("title", VStr "Festibal")] offline =
    (Ok {| status := 400; json := Some (failure "title en body zijn verplicht") |},
     offline).
Proof.
  apply (broadcast_missing_field persistent); [reflexivity | right; reflexivity].
Defined.

(** An accepted ticket followed by a null one. *)
Lemma single_send_accepted_witness :
  fst (SingleSend.post_send_notification 5 a_notification
         (answering (Responds (Json accepted)) offline)) =
    Ok {| status := 200;
          json := Some (VObj [("ok", VBool true);
                              ("ticket", VObj [("status", VStr "ok");
                                               ("id", VStr "t1")])]) |}.
Proof.
  rewrite (single_send_accepted 5 a_notification
             (answering (Responds (Json accepted)) offline)
             eq_refl eq_refl eq_refl accepted
             (VObj [("status", VStr "ok"); ("id", VStr "t1")]) [VNull] []);
    reflexivity.
Defined.

(** The reply {data: [null]}. *)
Lemma single_send_unreadable_reply_witness :
  fst (SingleSend.post_send_notification 5 a_notification
         (answering (Responds (Json (VObj [("data", VArr [VNull])]))) offline)) =
    Ok {| status := 500; json := Some (failure "Push failed (server error)") |}.
Proof.
  rewrite (single_send_unreadable_reply 5 a_notification
             (answering (Responds (Json (VObj [("data", VArr [VNull])]))) offline)
             eq_refl eq_refl eq_refl); [reflexivity|].
  do 4 right. exists (VObj [("data", VArr [VNull])]), [], []. split; reflexivity.
Defined.

(** The reply {errors: "rate limited"}. *)
Lemma single_send_invalid_reply_witness :
  fst (SingleSend.post_send_notification 5 a_notification
         (answering (Responds (Json (VObj [("errors", VStr "rate limited")])))
            offline)) =
    Ok {| status := 500;
          json := Some (VObj [("ok", VBool false);
                              ("error", VStr "Ongeldige Expo push response");
                              ("expo", VObj [("errors", VStr "rate limited")])]) |}.
Proof.
  rewrite (single_send_invalid_reply 5 a_notification
             (answering (Responds (Json (VObj [("errors", VStr "rate limited")])))
                offline)
             eq_refl eq_refl eq_refl (VObj [("errors", VStr "rate limited")]) []);
    [reflexivity | reflexivity | discriminate | discriminate].
Defined.

(** The one device registers again, then a broadcast goes out. *)
Lemma registered_token_is_broadcast_to_witness :
  let w1 := snd (Persistent.post_register_token 5 a_registration one_device) in
  let w2 := snd (Persistent.post_broadcast 6 an_announcement w1) in
  exists tos,
    outbound w2 = outbound one_device ++ [batch an_announcement tos]
    /\ (forall t, In t tos <-> t = a_token \/ In t (recipients persistent one_device))
    /\ (NoDup (recipients persistent one_device) -> NoDup tos).
Proof.
  apply (registered_token_is_broadcast_to persistent
           Persistent.post_register_token Persistent.post_broadcast
           5 6 a_registration an_announcement one_device a_token);
    try reflexivity; try discriminate.
  intros _. repeat split.
Defined.
